(** * LogHeal: the five-stage remediation pipeline of [orchestrator.py]

    A shallow embedding of the retrieval index ([CodebaseProvider]), the
    reply-parsing contract of the stage agents, the version-control agent
    ([GitManagerAgent]) and the [Orchestrator], followed by the properties
    the specification states about them.

    Conventions of the embedding.
    - Python text is a [string] of bytes; the character classes of [re] and
      [str] are the ASCII ones.
    - A value decoded from a model reply is a [JSON] value; the data classes
      hold such values, because the source stores whatever [data.get]
      returns without checking it against the annotated field type.
    - Every exchange with the outside (completion endpoint, git subprocesses,
      file writes, the observer callback) is answered by an oracle of the
      environment [Env], which sees the history of the run so far; the
      history is the state threaded through the pipeline.
    - A Python exception is a [Raise] outcome.
    - [int] converts at most [sys.int_max_str_digits] digits, 4300 as the
      interpreter starts; a longer digit string is a [ValueError]. *)

From Stdlib Require Import ZArith Ascii String List Bool Lia DecimalString.
From stdpp Require Import gmap strings list.

Set Warnings "-register-all".

Local Open Scope Z_scope.
Local Open Scope nat_scope.

(** ** Python [str] operations used by the source *)

Module PyStr.

Definition dquote : ascii := "034"%char.
Definition newline : ascii := "010"%char.
Definition backslash : ascii := "092"%char.

Definition nl : string := String newline "".

(** [str.isspace] on one ASCII character: TAB, LF, VT, FF, CR, FS, GS, RS,
    US and space. The class [\s] of [re] is the same set. *)
Definition is_space (c : ascii) : bool :=
  let n := nat_of_ascii c in
  ((9 <=? n) && (n <=? 13)) || ((28 <=? n) && (n <=? 32)).

Definition is_digit (c : ascii) : bool :=
  let n := nat_of_ascii c in (48 <=? n) && (n <=? 57).

Definition is_upper (c : ascii) : bool :=
  let n := nat_of_ascii c in (65 <=? n) && (n <=? 90).

Definition is_lower (c : ascii) : bool :=
  let n := nat_of_ascii c in (97 <=? n) && (n <=? 122).

Definition is_alnum (c : ascii) : bool := is_upper c || is_lower c || is_digit c.

(** The class [\w] of [re]. *)
Definition is_word (c : ascii) : bool := is_alnum c || Ascii.eqb c "_".

Fixpoint forallb_str (p : ascii -> bool) (s : string) : bool :=
  match s with
  | EmptyString => true
  | String c s' => p c && forallb_str p s'
  end.

Fixpoint existsb_str (p : ascii -> bool) (s : string) : bool :=
  match s with
  | EmptyString => false
  | String c s' => p c || existsb_str p s'
  end.

Fixpoint map_str (f : ascii -> ascii) (s : string) : string :=
  match s with
  | EmptyString => EmptyString
  | String c s' => String (f c) (map_str f s')
  end.

(** [s[len(old):]] when [s.startswith(old)]. *)
Fixpoint strip_prefix (old s : string) : option string :=
  match old with
  | EmptyString => Some s
  | String a old' =>
      match s with
      | EmptyString => None
      | String c s' => if Ascii.eqb a c then strip_prefix old' s' else None
      end
  end.

(** [s.replace(old, '')]: scan from the left, drop every occurrence of
    [old] met and resume after it. The scan visits at most [len(s)]
    positions, which is the fuel [py_remove] gives it. *)
Fixpoint remove_fuel (n : nat) (old s : string) : string :=
  match n with
  | O => s
  | S n' =>
      match strip_prefix old s with
      | Some rest => remove_fuel n' old rest
      | None =>
          match s with
          | EmptyString => EmptyString
          | String c s' => String c (remove_fuel n' old s')
          end
      end
  end.

Definition py_remove (old s : string) : string :=
  remove_fuel (String.length s) old s.

(** [s.replace(a, b)] for single characters. *)
Definition replace_char (a b : ascii) (s : string) : string :=
  map_str (fun c => if Ascii.eqb c a then b else c) s.

Definition lower_char (c : ascii) : ascii :=
  if is_upper c then ascii_of_nat (nat_of_ascii c + 32) else c.

(** [s.lower()] *)
Definition lower (s : string) : string := map_str lower_char s.

(** [s.lstrip()], [s.rstrip()] and [s.strip()] *)
Fixpoint lstrip (s : string) : string :=
  match s with
  | EmptyString => EmptyString
  | String c s' => if is_space c then lstrip s' else s
  end.

Fixpoint rstrip (s : string) : string :=
  match s with
  | EmptyString => EmptyString
  | String c s' =>
      match rstrip s' with
      | EmptyString => if is_space c then EmptyString else String c EmptyString
      | r => String c r
      end
  end.

Definition strip (s : string) : string := lstrip (rstrip s).

(** [s.split(sep)[-1]]: the text after the last [sep]. *)
Fixpoint last_segment_from (sep : ascii) (acc s : string) : string :=
  match s with
  | EmptyString => acc
  | String c s' =>
      if Ascii.eqb c sep then last_segment_from sep s' s'
      else last_segment_from sep acc s'
  end.

Definition last_segment (sep : ascii) (s : string) : string :=
  last_segment_from sep s s.

(** [s[:n]] and [s[n:]] for [n >= 0]. *)
Fixpoint take (n : nat) (s : string) : string :=
  match n, s with
  | S n', String c s' => String c (take n' s')
  | _, _ => EmptyString
  end.

Fixpoint drop (n : nat) (s : string) : string :=
  match n, s with
  | S n', String _ s' => drop n' s'
  | _, _ => s
  end.

(** [''.join(lines)] *)
Definition concat_str (l : list string) : string :=
  fold_right String.append EmptyString l.

(** [sep.join(l)] *)
Fixpoint join (sep : string) (l : list string) : string :=
  match l with
  | [] => EmptyString
  | [x] => x
  | x :: l' => x +:+ sep +:+ join sep l'
  end.

(** [str(n)] for a natural number. *)
Definition of_nat (n : nat) : string := NilEmpty.string_of_uint (Nat.to_uint n).

(** The value of a digit string; [int(s)] where [s.isdigit()]. *)
Definition digits_value (s : string) : nat :=
  (fix go (acc : nat) (s : string) : nat :=
     match s with
     | EmptyString => acc
     | String c s' => go (10 * acc + (nat_of_ascii c - 48)) s'
     end) 0 s.

(** [s.isdigit()] *)
Definition isdigit (s : string) : bool :=
  match s with
  | EmptyString => false
  | _ => forallb_str is_digit s
  end.

(** [f.readlines()]: the lines of a text, each with its terminator. *)
Fixpoint readlines_from (cur : string) (s : string) : list string :=
  match s with
  | EmptyString => match cur with EmptyString => [] | _ => [String.rev cur] end
  | String c s' =>
      if Ascii.eqb c newline then String.rev (String c cur) :: readlines_from EmptyString s'
      else readlines_from (String c cur) s'
  end.

Definition readlines (s : string) : list string := readlines_from EmptyString s.

(** [l[:k]] for an integer [k] of either sign. *)
Definition slice_to {A} (k : Z) (l : list A) : list A :=
  if (0 <=? k)%Z then firstn (Z.to_nat k) l
  else firstn (Z.to_nat (Z.of_nat (length l) + k)) l.

(** [l[a:b]] for [0 <= a]. *)
Definition slice {A} (a b : nat) (l : list A) : list A :=
  firstn (b - a) (skipn a l).

End PyStr.

(** ** The fragment of [re] used by the source

    Every quantifier of the source's patterns applies to a character
    class, so a pattern is a sequence of literals, classes, greedy
    repetitions of a class, capture groups and word boundaries. Matching
    is by backtracking in priority order, as [re] does: a greedy repetition
    first tries the longest run and gives characters back one at a time. *)

Module Regex.
Import PyStr.

Inductive re : Type :=
  | Lit (s : string)              (* literal text *)
  | Cls (p : ascii -> bool)       (* one character of a class *)
  | Many0 (p : ascii -> bool)     (* [p*] *)
  | Many1 (p : ascii -> bool)     (* [p+] *)
  | Grp (r : re)                  (* [( r )] *)
  | Cat (r1 r2 : re)
  | WordB.                        (* [\b] *)

(** What a successful match leaves: the unread text and the captures. *)
Definition result : Type := string * list string.

(** The continuation of a match: previous character, unread text,
    captures so far. *)
Definition cont : Type := option ascii -> string -> list string -> option result.

Fixpoint many (p : ascii -> bool) (prev : option ascii) (s : string)
    (k : option ascii -> string -> option result) : option result :=
  match s with
  | String c s' =>
      if p c then
        match many p (Some c) s' k with
        | Some r => Some r
        | None => k prev s
        end
      else k prev s
  | EmptyString => k prev s
  end.

Fixpoint lit (l : string) (prev : option ascii) (s : string)
    (k : option ascii -> string -> option result) : option result :=
  match l with
  | EmptyString => k prev s
  | String a l' =>
      match s with
      | String c s' => if Ascii.eqb a c then lit l' (Some c) s' k else None
      | EmptyString => None
      end
  end.

Definition word_at (c : option ascii) : bool :=
  match c with Some a => is_word a | None => false end.

Definition head (s : string) : option ascii :=
  match s with String c _ => Some c | EmptyString => None end.

Fixpoint run (r : re) (prev : option ascii) (s : string) (caps : list string)
    (k : cont) : option result :=
  match r with
  | Lit l => lit l prev s (fun prev' s' => k prev' s' caps)
  | Cls p =>
      match s with
      | String c s' => if p c then k (Some c) s' caps else None
      | EmptyString => None
      end
  | Many0 p => many p prev s (fun prev' s' => k prev' s' caps)
  | Many1 p =>
      match s with
      | String c s' =>
          if p c then many p (Some c) s' (fun prev' s' => k prev' s' caps) else None
      | EmptyString => None
      end
  | Grp r1 =>
      run r1 prev s caps
        (fun prev' s' caps' =>
           k prev' s' (caps' ++ [take (String.length s - String.length s') s]))
  | Cat r1 r2 =>
      run r1 prev s caps (fun prev' s' caps' => run r2 prev' s' caps' k)
  | WordB =>
      if xorb (word_at prev) (word_at (head s)) then k prev s caps else None
  end.

(** One attempt at the current position. *)
Definition attempt (r : re) (prev : option ascii) (s : string) : option result :=
  run r prev s [] (fun _ s' caps => Some (s', caps)).

(** A match: the matched text and the groups. *)
Record found : Type := Found { whole : string; groups : list string }.

(** The scan of [re.findall] and [re.finditer]: leftmost matches, not
    overlapping. [skip] counts the characters of the last match still to
    be passed over. *)
Fixpoint scan (r : re) (prev : option ascii) (s : string) (skip : nat)
    : list found :=
  match skip with
  | S n =>
      match s with
      | String c s' => scan r (Some c) s' n
      | EmptyString => []
      end
  | O =>
      match attempt r prev s with
      | Some (rest, caps) =>
          let n := String.length s - String.length rest in
          Found (take n s) caps ::
            match s with
            | String c s' => scan r (Some c) s' (n - 1)
            | EmptyString => []
            end
      | None =>
          match s with
          | String c s' => scan r (Some c) s' 0
          | EmptyString => []
          end
      end
  end.

Definition finditer (r : re) (s : string) : list found := scan r None s 0.

Fixpoint ngroups (r : re) : nat :=
  match r with
  | Grp r1 => S (ngroups r1)
  | Cat r1 r2 => ngroups r1 + ngroups r2
  | _ => 0
  end.

(** [re.findall(r, s)]: the whole matches for a pattern without group, the
    group for a pattern with one group, the tuple of groups otherwise. A
    tuple is the list of its components. *)
Definition findall (r : re) (s : string) : list (list string) :=
  map (fun f => match ngroups r with O => [whole f] | _ => groups f end)
      (finditer r s).

Definition chr (c : ascii) : ascii -> bool := Ascii.eqb c.

(** [[\w.]] *)
Definition word_or_dot (c : ascii) : bool := is_word c || Ascii.eqb c ".".

(** Any character but the double quote. *)
Definition not_dquote (c : ascii) : bool := negb (Ascii.eqb c dquote).

Fixpoint seq (l : list re) : re :=
  match l with
  | [] => Lit EmptyString
  | [r] => r
  | r :: l' => Cat r (seq l')
  end.

End Regex.

(** ** Values decoded by [json.loads]

    The decoder is Python's: the grammar of RFC 8259 in strict mode plus
    [NaN], [Infinity] and [-Infinity]. An integer literal decodes to an
    integer; any other number keeps its lexeme, since the only thing the
    source asks of a float is whether it is zero, which the environment
    answers. Text is UTF-8, so a [\uXXXX] escape decodes to the bytes of
    its code point. *)

Module Json.
Import PyStr.

Inductive JSON : Type :=
  | JNull
  | JBool (b : bool)
  | JInt (z : Z)
  | JFloat (lexeme : string)
  | JStr (s : string)
  | JArr (l : list JSON)
  | JObj (d : list (string * JSON)).

(** *** A [dict] with string keys, in insertion order *)

Section Dict.
Context {V : Type}.

Fixpoint dict_lookup (k : string) (d : list (string * V)) : option V :=
  match d with
  | [] => None
  | (k', v) :: d' => if String.eqb k k' then Some v else dict_lookup k d'
  end.

(** [d[k] = v]: an existing key keeps its place. *)
Fixpoint dict_set (k : string) (v : V) (d : list (string * V)) : list (string * V) :=
  match d with
  | [] => [(k, v)]
  | (k', v') :: d' =>
      if String.eqb k k' then (k', v) :: d' else (k', v') :: dict_set k v d'
  end.

(** [dict(pairs)] *)
Definition dict_of_pairs (pairs : list (string * V)) : list (string * V) :=
  fold_left (fun d kv => dict_set (fst kv) (snd kv) d) pairs [].

Definition dict_keys (d : list (string * V)) : list string := map fst d.

End Dict.

(** *** The decoder *)

(** The whitespace of the JSON grammar. *)
Definition is_ws (c : ascii) : bool :=
  Ascii.eqb c " " || Ascii.eqb c "009" || Ascii.eqb c "010" || Ascii.eqb c "013".

Fixpoint skip_ws (s : string) : string :=
  match s with
  | String c s' => if is_ws c then skip_ws s' else s
  | EmptyString => EmptyString
  end.

Definition hex_value (c : ascii) : option N :=
  let n := N_of_ascii c in
  if is_digit c then Some (n - 48)%N
  else if (97 <=? n)%N && (n <=? 102)%N then Some (n - 87)%N
  else if (65 <=? n)%N && (n <=? 70)%N then Some (n - 55)%N
  else None.

Definition byte (n : N) : ascii := ascii_of_N n.

(** The UTF-8 bytes of a code point (a lone surrogate is encoded like any
    other code point of its range). *)
Definition utf8 (u : N) : string :=
  (if u <? 128 then String (byte u) ""
   else if u <? 2048 then
     String (byte (192 + u / 64)) (String (byte (128 + u mod 64)) "")
   else if u <? 65536 then
     String (byte (224 + u / 4096))
       (String (byte (128 + (u / 64) mod 64)) (String (byte (128 + u mod 64)) ""))
   else
     String (byte (240 + u / 262144))
       (String (byte (128 + (u / 4096) mod 64))
          (String (byte (128 + (u / 64) mod 64)) (String (byte (128 + u mod 64)) ""))))%N.

Definition is_high_surrogate (u : N) : bool := ((55296 <=? u) && (u <=? 56319))%N.
Definition is_low_surrogate (u : N) : bool := ((56320 <=? u) && (u <=? 57343))%N.

(** The one-character escapes of [BACKSLASH]. *)
Definition simple_escape (c : ascii) : option ascii :=
  if Ascii.eqb c dquote then Some dquote
  else if Ascii.eqb c backslash then Some backslash
  else if Ascii.eqb c "/" then Some "/"%char
  else if Ascii.eqb c "b" then Some "008"%char
  else if Ascii.eqb c "f" then Some "012"%char
  else if Ascii.eqb c "n" then Some "010"%char
  else if Ascii.eqb c "r" then Some "013"%char
  else if Ascii.eqb c "t" then Some "009"%char
  else None.

(** Where [scanstring] stands inside a string literal. *)
Inductive sstate : Type :=
  | Plain                      (* between escapes *)
  | Escaped                    (* after a backslash *)
  | Hex (k : nat) (v : N).     (* inside [\uXXXX], [k] digits to go *)

Definition flush (pend : option N) : string :=
  match pend with Some hi => utf8 hi | None => EmptyString end.

Definition prepend (out : string) (r : option (string * string)) : option (string * string) :=
  match r with
  | Some (str, rest) => Some (out +:+ str, rest)
  | None => None
  end.

(** [scanstring], entered after the opening quote. [pend] is a high
    surrogate read from a [\uXXXX] escape and waiting for its low half. *)
Fixpoint scanstring_from (st : sstate) (pend : option N) (s : string)
    : option (string * string) :=
  match s with
  | EmptyString => None
  | String c s' =>
      match st with
      | Plain =>
          if Ascii.eqb c dquote then Some (flush pend, s')
          else if Ascii.eqb c backslash then scanstring_from Escaped pend s'
          else if nat_of_ascii c <? 32 then None
          else prepend (flush pend +:+ String c "") (scanstring_from Plain None s')
      | Escaped =>
          if Ascii.eqb c "u" then scanstring_from (Hex 4 0) pend s'
          else
            match simple_escape c with
            | Some e => prepend (flush pend +:+ String e "") (scanstring_from Plain None s')
            | None => None
            end
      | Hex k v =>
          match hex_value c with
          | None => None
          | Some d =>
              let u := (16 * v + d)%N in
              match k with
              | S (S k') => scanstring_from (Hex (S k') u) pend s'
              | _ =>
                  match pend with
                  | Some hi =>
                      if is_low_surrogate u then
                        prepend (utf8 (65536 + ((hi - 55296) * 1024 + (u - 56320)))%N)
                                (scanstring_from Plain None s')
                      else if is_high_surrogate u then
                        prepend (utf8 hi) (scanstring_from Plain (Some u) s')
                      else prepend (utf8 hi +:+ utf8 u) (scanstring_from Plain None s')
                  | None =>
                      if is_high_surrogate u then scanstring_from Plain (Some u) s'
                      else prepend (utf8 u) (scanstring_from Plain None s')
                  end
              end
          end
      end
  end.

Definition scanstring (s : string) : option (string * string) :=
  scanstring_from Plain None s.

(** The longest run of digits at the head of a text, and what follows. *)
Fixpoint span_digits (s : string) : string * string :=
  match s with
  | String c s' =>
      if is_digit c then let '(d, r) := span_digits s' in (String c d, r)
      else (EmptyString, s)
  | EmptyString => (EmptyString, EmptyString)
  end.

(** The integer part of [NUMBER_RE]: [0|[1-9]\d*]. *)
Definition scan_int (s : string) : option (string * string) :=
  match s with
  | String c s' =>
      if Ascii.eqb c "0" then Some (String c "", s')
      else if is_digit c then let '(d, r) := span_digits s' in Some (String c d, r)
      else None
  | EmptyString => None
  end.

(** The optional fraction [(\.\d+)?]. *)
Definition scan_frac (s : string) : string * string :=
  match s with
  | String c s' =>
      if Ascii.eqb c "." then
        match span_digits s' with
        | (EmptyString, _) => (EmptyString, s)
        | (d, r) => (String c d, r)
        end
      else (EmptyString, s)
  | EmptyString => (EmptyString, s)
  end.

(** The optional exponent [([eE][-+]?\d+)?]. *)
Definition scan_exp (s : string) : string * string :=
  match s with
  | String c s' =>
      if Ascii.eqb c "e" || Ascii.eqb c "E" then
        match s' with
        | String g s'' =>
            if Ascii.eqb g "+" || Ascii.eqb g "-" then
              match span_digits s'' with
              | (EmptyString, _) => (EmptyString, s)
              | (d, r) => (String c (String g d), r)
              end
            else
              match span_digits s' with
              | (EmptyString, _) => (EmptyString, s)
              | (d, r) => (String c d, r)
              end
        | EmptyString => (EmptyString, s)
        end
      else (EmptyString, s)
  | EmptyString => (EmptyString, s)
  end.

Definition scan_number (s : string) : option (JSON * string) :=
  let '(neg, s0) :=
    match s with
    | String c s' => if Ascii.eqb c "-" then (true, s') else (false, s)
    | EmptyString => (false, s)
    end in
  match scan_int s0 with
  | None => None
  | Some (i, r1) =>
      let '(f, r2) := scan_frac r1 in
      let '(e, r3) := scan_exp r2 in
      match f, e with
      | EmptyString, EmptyString =>
          let n := Z.of_nat (digits_value i) in
          Some (JInt (if neg then (- n)%Z else n), r3)
      | _, _ => Some (JFloat ((if neg then "-" else "") +:+ i +:+ f +:+ e), r3)
      end
  end.

(** A constant of the grammar at the head of the text. *)
Definition keyword (w : string) (v : JSON) (s : string) : option (JSON * string) :=
  match strip_prefix w s with
  | Some rest => Some (v, rest)
  | None => None
  end.

Definition orelse {A} (a b : option A) : option A :=
  match a with Some _ => a | None => b end.

(** [scan_once], [JSONArray] and [JSONObject]. [parse_items] is entered
    at the first element of a non-empty array, [parse_members] after the
    opening quote of a key. *)
Fixpoint scan_once (fuel : nat) (s : string) : option (JSON * string) :=
  match fuel with
  | O => None
  | S fuel' =>
      match s with
      | EmptyString => None
      | String c s' =>
          if Ascii.eqb c dquote then
            match scanstring s' with
            | Some (str, rest) => Some (JStr str, rest)
            | None => None
            end
          else if Ascii.eqb c "{" then
            match skip_ws s' with
            | String c1 r1 =>
                if Ascii.eqb c1 "}" then Some (JObj [], r1)
                else if Ascii.eqb c1 dquote then
                  match parse_members fuel' r1 with
                  | Some (pairs, rest) => Some (JObj (dict_of_pairs pairs), rest)
                  | None => None
                  end
                else None
            | EmptyString => None
            end
          else if Ascii.eqb c "[" then
            match skip_ws s' with
            | String c1 r1 =>
                if Ascii.eqb c1 "]" then Some (JArr [], r1)
                else
                  match parse_items fuel' (String c1 r1) with
                  | Some (vs, rest) => Some (JArr vs, rest)
                  | None => None
                  end
            | EmptyString => None
            end
          else if Ascii.eqb c "n" then keyword "null" JNull s
          else if Ascii.eqb c "t" then keyword "true" (JBool true) s
          else if Ascii.eqb c "f" then keyword "false" (JBool false) s
          else
            orelse (scan_number s)
              (if Ascii.eqb c "N" then keyword "NaN" (JFloat "NaN") s
               else if Ascii.eqb c "I" then keyword "Infinity" (JFloat "Infinity") s
               else if Ascii.eqb c "-" then keyword "-Infinity" (JFloat "-Infinity") s
               else None)
      end
  end
with parse_items (fuel : nat) (s : string) : option (list JSON * string) :=
  match fuel with
  | O => None
  | S fuel' =>
      match scan_once fuel' s with
      | None => None
      | Some (v, rest) =>
          match skip_ws rest with
          | String c r =>
              if Ascii.eqb c "]" then Some ([v], r)
              else if Ascii.eqb c "," then
                match parse_items fuel' (skip_ws r) with
                | Some (vs, r') => Some (v :: vs, r')
                | None => None
                end
              else None
          | EmptyString => None
          end
      end
  end
with parse_members (fuel : nat) (s : string) : option (list (string * JSON) * string) :=
  match fuel with
  | O => None
  | S fuel' =>
      match scanstring s with
      | None => None
      | Some (key, r0) =>
          match skip_ws r0 with
          | String c0 r1 =>
              if Ascii.eqb c0 ":" then
                match scan_once fuel' (skip_ws r1) with
                | None => None
                | Some (v, r2) =>
                    match skip_ws r2 with
                    | String c r3 =>
                        if Ascii.eqb c "}" then Some ([(key, v)], r3)
                        else if Ascii.eqb c "," then
                          match skip_ws r3 with
                          | String q r4 =>
                              if Ascii.eqb q dquote then
                                match parse_members fuel' r4 with
                                | Some (kvs, r') => Some ((key, v) :: kvs, r')
                                | None => None
                                end
                              else None
                          | EmptyString => None
                          end
                        else None
                    | EmptyString => None
                    end
                end
              else None
          | EmptyString => None
          end
      end
  end.

(** [json.loads(s)]; [None] is a [JSONDecodeError]. Each level of nesting
    and each element costs the scan at most two steps per character. *)
Definition json_loads (s : string) : option JSON :=
  match scan_once (2 * String.length s + 2) (skip_ws s) with
  | Some (v, rest) =>
      match skip_ws rest with
      | EmptyString => Some v
      | _ => None
      end
  | None => None
  end.

End Json.

(** ** Exceptions and the operations that may raise them *)

Module Py.
Import PyStr Json.

Inductive exn : Type :=
  | ApiError (msg : string)            (* the [Exception] of [call_claude] *)
  | JSONDecodeError
  | ValueError (msg : string)
  | TypeError
  | AttributeError
  | KeyError (key : string)
  | IndexError
  | UnboundLocalError (var : string)
  | OSError (msg : string)
  | CalledProcessError (returncode : Z)
  | CallbackError (msg : string).      (* whatever the observer raises *)

(** [str(e)] *)
Definition exn_str (e : exn) : string :=
  match e with
  | ApiError m | ValueError m | OSError m | CallbackError m => m
  | KeyError k => k
  | UnboundLocalError v => v
  | JSONDecodeError => "JSONDecodeError"
  | TypeError => "TypeError"
  | AttributeError => "AttributeError"
  | IndexError => "IndexError"
  | CalledProcessError _ => "CalledProcessError"
  end.

Inductive outcome (A : Type) : Type :=
  | Ret (a : A)
  | Raise (e : exn).
Arguments Ret {A} a.
Arguments Raise {A} e.

#[global] Instance outcome_bind : MBind outcome := fun A B f m =>
  match m with
  | Ret a => f a
  | Raise e => Raise e
  end.

(** A [for] loop whose body may raise. *)
Fixpoint foldM {A S} (f : S -> A -> outcome S) (l : list A) (s : S) : outcome S :=
  match l with
  | [] => Ret s
  | a :: l' => s' ← f s a ; foldM f l' s'
  end.

(** [t[i]] on a tuple or list *)
Definition index {A} (l : list A) (i : nat) : outcome A :=
  match nth_error l i with
  | Some a => Ret a
  | None => Raise IndexError
  end.

(** [d[k]] on a dict *)
Definition getitem {V} (d : gmap string V) (k : string) : outcome V :=
  match d !! k with
  | Some v => Ret v
  | None => Raise (KeyError k)
  end.

(** [k in d] *)
Definition contains {V} (d : gmap string V) (k : string) : bool :=
  bool_decide (is_Some (d !! k)).

(** The most digits [int] converts: [sys.int_max_str_digits], which is
    4300 unless the interpreter is told otherwise. *)
Definition int_max_str_digits : nat := 4300.

(** [int(s)] on a string of decimal digits: its value, or the
    [ValueError] of the interpreter when the string has more digits than
    [int_max_str_digits]. Anything else is refused here, which is more
    than Python refuses (a sign, blanks, underscores); the code calls
    [int] on digit strings only. *)
Definition int (s : string) : outcome nat :=
  if isdigit s then
    if String.length s <=? int_max_str_digits then Ret (digits_value s)
    else Raise (ValueError
                  ("Exceeds the limit (" +:+ of_nat int_max_str_digits
                   +:+ " digits) for integer string conversion: value has "
                   +:+ of_nat (String.length s)
                   +:+ " digits; use sys.set_int_max_str_digits() to increase the limit"))
  else Raise (ValueError s).

(** *** Operations on values of unknown type *)

Definition is_list (v : JSON) : bool := match v with JArr _ => true | _ => false end.
Definition is_dict (v : JSON) : bool := match v with JObj _ => true | _ => false end.
Definition is_str (v : JSON) : bool := match v with JStr _ => true | _ => false end.

Section Truth.
(** Whether [float(lexeme) == 0.0]; the rounding of a decimal literal to
    a double is the runtime's. *)
Variable float_is_zero : string -> bool.

(** [bool(v)] *)
Definition truthy (v : JSON) : bool :=
  match v with
  | JNull => false
  | JBool b => b
  | JInt z => negb (z =? 0)%Z
  | JFloat x => negb (float_is_zero x)
  | JStr s => negb (String.eqb s "")
  | JArr l => match l with [] => false | _ => true end
  | JObj d => match d with [] => false | _ => true end
  end.
End Truth.

Fixpoint chars (s : string) : list string :=
  match s with
  | EmptyString => []
  | String c s' => String c "" :: chars s'
  end.

(** [iter(v)]: the characters of a string, the elements of a list, the
    keys of a dict. *)
Definition iter (v : JSON) : outcome (list JSON) :=
  match v with
  | JStr s => Ret (map JStr (chars s))
  | JArr l => Ret l
  | JObj d => Ret (map JStr (dict_keys d))
  | _ => Raise TypeError
  end.

Definition as_str (v : JSON) : outcome string :=
  match v with JStr s => Ret s | _ => Raise TypeError end.

Fixpoint mapM {A B} (f : A -> outcome B) (l : list A) : outcome (list B) :=
  match l with
  | [] => Ret []
  | a :: l' => b ← f a ; bs ← mapM f l' ; Ret (b :: bs)
  end.

(** [', '.join(v)] *)
Definition join_comma (v : JSON) : outcome string :=
  items ← iter v ;
  strs ← mapM as_str items ;
  Ret (join ", " strs).

(** [len(v)] *)
Definition len (v : JSON) : outcome nat :=
  match v with
  | JStr s => Ret (String.length s)
  | JArr l => Ret (length l)
  | JObj d => Ret (length d)
  | _ => Raise TypeError
  end.

(** [v[:n]], of which the source only logs the result. *)
Definition slice_prefix (n : nat) (v : JSON) : outcome JSON :=
  match v with
  | JStr s => Ret (JStr (take n s))
  | JArr l => Ret (JArr (firstn n l))
  | _ => Raise TypeError
  end.

(** The receiver of a [str] method such as [v.lower()]; no other kind of
    value has the attribute. *)
Definition str_receiver (v : JSON) : outcome string :=
  match v with JStr s => Ret s | _ => Raise AttributeError end.

(** [v.get(k, default)] *)
Definition dict_get (v : JSON) (k : string) (default : JSON) : outcome JSON :=
  match v with
  | JObj d => Ret (match dict_lookup k d with Some x => x | None => default end)
  | _ => Raise AttributeError
  end.

End Py.

(** ** The retrieval index: [CodebaseProvider] *)

Module Codebase.
Import PyStr Regex Json Py.

(** What opening and reading a file gives. *)
Inductive read_result : Type :=
  | ReadOk (text : string)
  | ReadErr (e : string).

(** A path met by [rglob]. *)
Record PathEntry : Type := {
  parts : list string;     (* [file_path.parts], those of the root included *)
  is_file : bool
}.

(** [str(file_path)] *)
Definition path_str (p : list string) : string :=
  match p with
  | root :: rest => if String.eqb root "/" then "/" +:+ join "/" rest else join "/" p
  | [] => "."
  end.

(** [file_path.name] *)
Definition path_name (p : list string) : string := List.last p "".

(** [PurePath.suffix]: from the last dot of the name, unless the dot
    starts or ends the name. *)
Definition suffix_of (name : string) : string :=
  if existsb_str (Ascii.eqb ".") name then
    let ext := last_segment "." name in
    if (String.length ext + 1 <? String.length name) && negb (String.eqb ext "")
    then "." +:+ ext else ""
  else "".

(** [os.path.basename] *)
Definition basename (p : string) : string := last_segment "/" p.

Record CodebaseProvider : Type := {
  file_index : gmap string string;          (* filename -> full path *)
  class_index : gmap string (list string)   (* class name -> paths *)
}.

Definition file_extensions : list string :=
  [".py"; ".java"; ".cs"; ".js"; ".ts"; ".go"; ".rb"].

Definition excluded_dirs : list string :=
  [".venv"; "venv"; "env"; "node_modules"; ".git"; "__pycache__";
   "bin"; "obj"; "build"; "dist"; ".pytest_cache"; ".mypy_cache";
   "site-packages"; "Lib"; "lib"; "packages"].

Definition in_list (x : string) (l : list string) : bool :=
  existsb (String.eqb x) l.

Definition class_patterns : list re :=
  [ seq [Lit "class"; Many1 is_space; Grp (Many1 is_word)];
    seq [Lit "interface"; Many1 is_space; Grp (Many1 is_word)];
    seq [Lit "public"; Many1 is_space; Lit "class"; Many1 is_space; Grp (Many1 is_word)] ].

(** The groups found by every pattern in turn. *)
Definition all_matches (patterns : list re) (text : string) : list (list string) :=
  concat (map (fun pattern => findall pattern text) patterns).

(** The class names a text declares, in the order the loops of
    [_build_index] meet them. *)
Definition class_names (content : string) : list string :=
  concat (all_matches class_patterns content).

(** [class_index[class_name].append(path)], the list created on first use. *)
Definition register_class (path : string) (ci : gmap string (list string))
    (class_name : string) : gmap string (list string) :=
  <[class_name := default [] (ci !! class_name) ++ [path]]> ci.

Section WithFiles.
(** The file system as the index reads it. *)
Variable fs : string -> read_result.

(** One turn of the loop of [_build_index]. *)
Definition index_entry (extensions : list string) (cp : CodebaseProvider)
    (e : PathEntry) : CodebaseProvider :=
  if existsb (fun excluded => in_list excluded (parts e)) excluded_dirs then cp
  else if is_file e && in_list (suffix_of (path_name (parts e))) extensions then
    let path := path_str (parts e) in
    let fi := <[path_name (parts e) := path]> (file_index cp) in
    match fs path with
    | ReadErr _ => {| file_index := fi; class_index := class_index cp |}
    | ReadOk content =>
        {| file_index := fi;
           class_index := fold_left (register_class path) (class_names content)
                            (class_index cp) |}
    end
  else cp.

(** [_build_index], over the paths in the order [rglob] yields them. *)
Definition _build_index (extensions : list string) (tree : list PathEntry)
    : CodebaseProvider :=
  fold_left (index_entry extensions) tree {| file_index := ∅; class_index := ∅ |}.

Definition open_readlines (file_path : string) : outcome (list string) :=
  match fs file_path with
  | ReadOk text => Ret (readlines text)
  | ReadErr e => Raise (OSError e)
  end.

Definition read_error (e : exn) : string :=
  "[Error reading file: " +:+ exn_str e +:+ "]".

(** [_read_file_excerpt]; the whole body is under [try]. *)
Definition _read_file_excerpt (file_path : string) (line_number : option nat)
    (context_lines : nat) : string :=
  match
    lines ← open_readlines file_path ;
    match line_number with
    | Some (S n as ln) =>
        if ln <=? length lines then
          let start := ln - context_lines - 1 in
          let end_ := Nat.min (length lines) (ln + context_lines) in
          let excerpt := concat_str (slice start end_ lines) in
          Ret ("... (lines " +:+ of_nat (start + 1) +:+ "-" +:+ of_nat end_
                 +:+ ") ..." +:+ nl +:+ excerpt)
        else Ret ("... (first 20 lines) ..." +:+ nl +:+ concat_str (firstn 20 lines))
    | _ => Ret ("... (first 20 lines) ..." +:+ nl +:+ concat_str (firstn 20 lines))
    end
  with
  | Ret s => s
  | Raise e => read_error e
  end.

(** [get_file_content] *)
Definition get_file_content (file_path : string) : string :=
  match fs file_path with
  | ReadOk text => text
  | ReadErr e => read_error (OSError e)
  end.

Inductive relevance : Type := stack_trace | class_match.

(** An entry of the list [find_relevant_files] returns. *)
Record FileInfo : Type := {
  path : string;
  filename : string;
  line : string;
  content : string;
  tag : relevance
}.

Definition file_patterns : list re :=
  [ (* at com.Class(File.java:123) *)
    seq [Lit "at"; Many1 is_space; Many1 word_or_dot; Lit "(";
         Grp (Many1 word_or_dot); Lit ":"; Grp (Many1 is_digit); Lit ")"];
    (* File [quoted path], line 123 *)
    seq [Lit "File"; Many1 is_space; Cls (chr dquote); Grp (Many1 not_dquote);
         Cls (chr dquote); Lit ","; Many1 is_space; Lit "line"; Many1 is_space;
         Grp (Many1 is_digit)];
    (* file.js:123:45 *)
    seq [Grp (Many1 word_or_dot); Lit ":"; Grp (Many1 is_digit); Lit ":";
         Grp (Many1 is_digit)];
    (* File.cs:line 123 *)
    seq [Grp (Cat (Many1 word_or_dot) (Lit ".cs")); Lit ":line"; Many1 is_space;
         Grp (Many1 is_digit)] ].

(** The pattern of capitalised words. *)
Definition word_pattern : re :=
  seq [WordB; Cls is_upper; Many0 is_alnum; WordB].

(** The state of the two loops: the entries so far and [seen_paths]. *)
Definition selection : Type := list FileInfo * gset string.

(** The body of the loop over the matches of the stack-frame patterns.
    The [int] of the line number stands in no [try]: what it raises
    leaves the loop and the query. *)
Definition stack_step (cp : CodebaseProvider) (acc : selection) (m : list string)
    : outcome selection :=
  m0 ← index m 0 ;
  let filename := last_segment backslash (last_segment "/" m0) in
  line_number ← (if 1 <? length m then index m 1 else Ret "?") ;
  if contains (file_index cp) filename then
    indexed ← getitem (file_index cp) filename ;
    if bool_decide (indexed ∉ acc.2) then
      file_path ← getitem (file_index cp) filename ;
      ln ← (if isdigit line_number then n ← int line_number ; Ret (Some n)
             else Ret None) ;
      let content := _read_file_excerpt file_path ln 10 in
      Ret (acc.1 ++ [{| path := file_path; filename := filename;
                        line := line_number; content := content;
                        tag := stack_trace |}],
           {[file_path]} ∪ acc.2)
    else Ret acc
  else Ret acc.

(** The body of the inner loop over the first two paths of a class. *)
Definition class_path_step (acc : selection) (file_path : string) : selection :=
  if bool_decide (file_path ∉ acc.2) then
    (acc.1 ++ [{| path := file_path; filename := basename file_path;
                  line := "?"; content := _read_file_excerpt file_path None 10;
                  tag := class_match |}],
     {[file_path]} ∪ acc.2)
  else acc.

(** The body of the loop over the capitalised words. *)
Definition word_step (cp : CodebaseProvider) (acc : selection) (word : string)
    : outcome selection :=
  if contains (class_index cp) word then
    paths ← getitem (class_index cp) word ;
    Ret (fold_left class_path_step (firstn 2 paths) acc)
  else Ret acc.

(** [find_relevant_files] *)
Definition find_relevant_files (cp : CodebaseProvider)
    (stack_trace_text error_message : string) (max_files : Z)
    : outcome (list FileInfo) :=
  acc1 ← foldM (stack_step cp) (all_matches file_patterns stack_trace_text) ([], ∅) ;
  let words := concat (findall word_pattern error_message) in
  acc2 ← foldM (word_step cp) words acc1 ;
  Ret (slice_to max_files acc2.1).

End WithFiles.

End Codebase.

(** ** The data classes *)

Module LogAnalysis.
Import Json.
Record t : Type := mk {
  error_type : JSON;
  error_message : JSON;
  stack_trace : JSON;
  affected_files : JSON;
  severity : JSON;
  timestamp : string
}.
End LogAnalysis.

Module Solution.
Import Json.
Record t : Type := mk {
  description : JSON;
  affected_files : JSON;
  code_changes : JSON;
  tests_needed : JSON
}.
End Solution.

Module GitOperation.
Record t : Type := mk {
  branch_name : string;
  commit_message : string;
  files_changed : list string;
  success : bool
}.
End GitOperation.

Module ErrorContext.
Import Json.
Record t : Type := mk {
  error_location : JSON;
  root_cause : JSON;
  relevant_code : JSON;
  summary : JSON;
  relevant_files : list string
}.
End ErrorContext.

(** ** The agents and the orchestrator *)

Module Pipeline.
Import PyStr Json Py Codebase.

Inductive stage : Type :=
  | LogAnalyzer | ErrorLocator | SolutionArchitect | CodeGenerator | GitManager.

(** What a prompt embeds; its wording is constant text around these. *)
Inductive prompt : Type :=
  | AnalyzePrompt (elk_logs_json : list JSON)
  | LocatePrompt (analysis : LogAnalysis.t) (relevant_files_info : list FileInfo)
  | SolutionPrompt (analysis : LogAnalysis.t) (affected : string)
      (error_context : option ErrorContext.t) (codebase_context : string)
  | FixPrompt (file_path : string) (change_description : JSON)
      (description : JSON) (original_content : string).

(** The git commands the source runs, by their arguments after [git]. *)
Inductive git_cmd : Type :=
  | CheckoutNew (branch : string)     (* checkout -b <branch> *)
  | AddAll                            (* add -A *)
  | StatusPorcelain                   (* status --porcelain *)
  | CheckoutPrevious                  (* checkout - *)
  | BranchDelete (branch : string)    (* branch -D <branch> *)
  | Commit (message : string).        (* commit -m <message> *)

(** What [subprocess.run] gives: a finished process, or no process at
    all ([OSError], as when the executable or the directory is missing). *)
Inductive proc_result : Type :=
  | Exited (returncode : Z) (stdout stderr : string)
  | SpawnError (e : string).

Inductive event : Type :=
  | Invoked (a : stage)
  | Completion (a : stage) (p : prompt) (r : outcome string)
  | Subprocess (c : git_cmd) (r : proc_result)
  | Makedirs (dir : string) (r : option string)
  | WriteFile (file content : string) (r : option string)
  | Callback (filename original fixed : string) (r : option exn).

Definition history : Type := list event.

(** The observer: [None] when it returns, the exception when it raises. *)
Definition callback : Type := history -> string -> string -> string -> option exn.

(** Everything the run depends on and the repository does not define. *)
Record Env : Type := {
  float_is_zero : string -> bool;
  format_value : JSON -> string;       (* [str(v)] of a value that is not a string *)
  fs : string -> read_result;
  completion : history -> stage -> prompt -> outcome string;
  subprocess_run : history -> git_cmd -> proc_result;
  os_makedirs : history -> string -> option string;
  write_text : history -> string -> string -> option string;
  now_isoformat : history -> string;   (* [datetime.now().isoformat()] *)
  now_compact : history -> string      (* [strftime] with [%Y%m%d-%H%M%S] *)
}.

(** A computation over the history of the run. *)
Definition run (A : Type) : Type := history -> outcome A * history.

#[global] Instance run_ret : MRet run := fun A a h => (Ret a, h).

#[global] Instance run_bind : MBind run := fun A B f m h =>
  match m h with
  | (Ret a, h') => f a h'
  | (Raise e, h') => (Raise e, h')
  end.

Definition lift {A} (o : outcome A) : run A := fun h => (o, h).

Definition raise {A} (e : exn) : run A := fun h => (Raise e, h).

Definition emit (e : event) : run unit := fun h => (Ret tt, h ++ [e]).

(** The history so far, for the clock. *)
Definition so_far : run history := fun h => (Ret h, h).

(** A [for] loop with a body over the history. *)
Fixpoint for_each {A S} (f : S -> A -> run S) (l : list A) (s : S) : run S :=
  match l with
  | [] => mret s
  | a :: l' => s' ← f s a; for_each f l' s'
  end.

(** [except subprocess.CalledProcessError] *)
Definition except_called_process_error {A} (body : run A) (handler : run A) : run A :=
  fun h =>
    match body h with
    | (Raise (CalledProcessError _), h') => handler h'
    | r => r
    end.

(** [os.path.join(a, b)] *)
Definition os_path_join (a b : string) : string :=
  match b with
  | String c _ =>
      if Ascii.eqb c "/" then b
      else
        match String.rev a with
        | EmptyString => b
        | String z _ => if Ascii.eqb z "/" then a +:+ b else a +:+ "/" +:+ b
        end
  | EmptyString =>
      match String.rev a with
      | EmptyString => b
      | String z _ => if Ascii.eqb z "/" then a else a +:+ "/"
      end
  end.

Fixpoint rstrip_slash (s : string) : string :=
  match s with
  | EmptyString => EmptyString
  | String c s' =>
      match rstrip_slash s' with
      | EmptyString => if Ascii.eqb c "/" then EmptyString else String c EmptyString
      | r => String c r
      end
  end.

(** [os.path.dirname(p)] *)
Definition os_path_dirname (p : string) : string :=
  if existsb_str (Ascii.eqb "/") p then
    let head := take (String.length p - String.length (last_segment "/" p)) p in
    if forallb_str (Ascii.eqb "/") head then head else rstrip_slash head
  else "".

(** The reply with its Markdown fences removed, as the three JSON agents
    do it. *)
Definition clean_response (response : string) : string :=
  strip (py_remove "```"
          (py_remove ("```" +:+ nl)
            (py_remove "```json"
              (py_remove ("```json" +:+ nl) response)))).

(** [data = json.loads(clean_response)], the first element taken when
    it is a list, refused unless it is a dict then. The three JSON agents
    carry the same lines. *)
Definition decode_reply (response : string) : outcome (list (string * JSON)) :=
  match json_loads (clean_response response) with
  | None => Raise JSONDecodeError
  | Some data =>
      let data :=
        match data with
        | JArr l => match l with x :: _ => x | [] => JObj [] end
        | _ => data
        end in
      match data with
      | JObj d => Ret d
      | _ => Raise (ValueError "API yanıtı sözlük formatında değil")
      end
  end.

(** [data.get(key, default)] *)
Definition get (data : list (string * JSON)) (key : string) (default : JSON) : JSON :=
  match dict_lookup key data with
  | Some v => v
  | None => default
  end.

(** The reply of the code generator with its fences removed. *)
Definition clean_code (fixed_content : string) : string :=
  strip (py_remove "```"
          (py_remove ("```" +:+ nl)
            (py_remove ("```cs" +:+ nl)
              (py_remove ("```csharp" +:+ nl)
                (py_remove ("```java" +:+ nl)
                  (py_remove ("```javascript" +:+ nl)
                    (py_remove ("```python" +:+ nl) fixed_content))))))).

(** The name of the fix branch, from the error type and the time stamp. *)
Definition branch_name_for (error_type timestamp : string) : string :=
  let error_slug := replace_char "_" "-" (replace_char " " "-" (lower error_type)) in
  "fix/" +:+ error_slug +:+ "-" +:+ timestamp.

Section WithEnv.
Variable env : Env.

(** [str(v)] as an f-string embeds it. *)
Definition to_text (v : JSON) : string :=
  match v with
  | JStr s => s
  | _ => format_value env v
  end.

(** [BaseAgent.call_claude] *)
Definition call_claude (a : stage) (p : prompt) : run string :=
  fun h =>
    let r := completion env h a p in
    (r, h ++ [Completion a p r]).

(** [', '.join(v) if v else <text>] *)
Definition join_or (v : JSON) (otherwise : string) : outcome string :=
  if truthy (float_is_zero env) v then join_comma v else Ret otherwise.

(** [LogAnalyzerAgent.analyze_logs] *)
Definition analyze_logs (elk_logs_json : list JSON) : run LogAnalysis.t :=
  _ ← emit (Invoked LogAnalyzer);
  response ← call_claude LogAnalyzer (AnalyzePrompt elk_logs_json);
  data ← lift (decode_reply response);
  h ← so_far;
  mret (LogAnalysis.mk
          (get data "error_type" (JStr "Unknown Error"))
          (get data "error_message" (JStr "No message"))
          (get data "stack_trace" (JStr "No stack trace"))
          (get data "affected_files" (JArr []))
          (get data "severity" (JStr "medium"))
          (now_isoformat env h)).

(** The part of [locate_error] before the completion call: the paths
    consulted and the prompt. The prompt is assigned inside the branch
    that has a provider, so it is unbound without one. *)
Definition locate_prompt (analysis : LogAnalysis.t)
    (codebase_provider : option CodebaseProvider)
    : outcome (list string * option prompt) :=
  match codebase_provider with
  | Some cp =>
      (* [re.findall] refuses anything but text *)
      st ← as_str (LogAnalysis.stack_trace analysis);
      em ← as_str (LogAnalysis.error_message analysis);
      relevant_files ← find_relevant_files (fs env) cp st em 10;
      let info :=
        map (fun f => {| path := path f; filename := filename f; line := line f;
                         content := take 500 (content f); tag := tag f |})
            relevant_files in
      Ret (map path relevant_files, Some (LocatePrompt analysis info))
  | None => Ret ([], None)
  end.

(** [ErrorLocatorAgent.locate_error] *)
Definition locate_error (analysis : LogAnalysis.t)
    (codebase_provider : option CodebaseProvider) : run ErrorContext.t :=
  _ ← emit (Invoked ErrorLocator);
  '(relevant_file_paths, prompt_var) ← lift (locate_prompt analysis codebase_provider);
  response ←
    match prompt_var with
    | Some p => call_claude ErrorLocator p
    | None => raise (UnboundLocalError "prompt")
    end;
  data ← lift (decode_reply response);
  let error_context :=
    ErrorContext.mk
      (get data "error_location" (JStr "Unknown"))
      (get data "root_cause" (JStr "Unknown"))
      (get data "relevant_code" (JStr "N/A"))
      (get data "summary" (JStr "No summary available"))
      relevant_file_paths in
  (* the log line slices [root_cause] *)
  _ ← lift (slice_prefix 100 (ErrorContext.root_cause error_context));
  mret error_context.

(** [SolutionArchitectAgent.propose_solution] *)
Definition propose_solution (analysis : LogAnalysis.t)
    (error_context : option ErrorContext.t) (codebase_context : string)
    : run Solution.t :=
  _ ← emit (Invoked SolutionArchitect);
  affected ← lift (join_or (LogAnalysis.affected_files analysis) "Bilinmiyor");
  response ← call_claude SolutionArchitect
               (SolutionPrompt analysis affected error_context codebase_context);
  data ← lift (decode_reply response);
  let solution :=
    Solution.mk
      (get data "description" (JStr "No description"))
      (get data "affected_files" (JArr []))
      (get data "code_changes" (JObj []))
      (get data "tests_needed" (JArr [])) in
  (* the log line takes [len(solution.affected_files)] *)
  _ ← lift (len (Solution.affected_files solution));
  mret solution.

(** [file_contents.get(file_path, "")]; a list or a dict cannot be a key. *)
Definition preloaded (file_contents : gmap string string) (file_path : JSON)
    : outcome string :=
  match file_path with
  | JStr p => Ret (default "" (file_contents !! p))
  | JArr _ | JObj _ => Raise TypeError
  | _ => Ret ""
  end.

(** The lookup of the original content through the index. *)
Definition indexed_content (cp : CodebaseProvider) (file_path : JSON)
    : outcome string :=
  p ← as_str file_path;
  let filename := basename p in
  if contains (file_index cp) filename then
    full_path ← getitem (file_index cp) filename;
    Ret (get_file_content (fs env) full_path)
  else Ret "".

(** The body of the loop of [generate_fix]. *)
Definition fix_one (solution : Solution.t) (file_contents : gmap string string)
    (codebase_provider : option CodebaseProvider)
    (fixed_files : list (string * string)) (file_path : JSON)
    : run (list (string * string)) :=
  original_content ← lift (preloaded file_contents file_path);
  original_content ← lift
    (match codebase_provider with
     | Some cp =>
         if String.eqb original_content "" then indexed_content cp file_path
         else Ret original_content
     | None => Ret original_content
     end);
  if String.eqb original_content "" then mret fixed_files
  else
    change_description ←
      lift (match file_path with
            | JStr p => dict_get (Solution.code_changes solution) p (JStr "")
            | _ => Raise TypeError
            end);
    p ← lift (as_str file_path);
    fixed_content ← call_claude CodeGenerator
                      (FixPrompt p change_description
                         (Solution.description solution) original_content);
    mret (dict_set p (clean_code fixed_content) fixed_files).

(** [CodeGeneratorAgent.generate_fix]; its callback parameter is unused. *)
Definition generate_fix (solution : Solution.t) (file_contents : gmap string string)
    (codebase_provider : option CodebaseProvider) : run (list (string * string)) :=
  _ ← emit (Invoked CodeGenerator);
  files ← lift (iter (Solution.affected_files solution));
  for_each (fix_one solution file_contents codebase_provider) files [].

(** [subprocess.run(['git', ...], cwd=self.repo_path, ...)] *)
Definition git (c : git_cmd) : run proc_result :=
  fun h =>
    let r := subprocess_run env h c in
    match r with
    | Exited _ _ _ => (Ret r, h ++ [Subprocess c r])
    | SpawnError e => (Raise (OSError e), h ++ [Subprocess c r])
    end.

(** The same with [check=True]. *)
Definition git_checked (c : git_cmd) : run proc_result :=
  r ← git c;
  match r with
  | Exited rc _ _ => if (rc =? 0)%Z then mret r else raise (CalledProcessError rc)
  | SpawnError e => raise (OSError e)
  end.

(** [os.makedirs(dir, exist_ok=True)]; the oracle answers with the
    message of the [OSError], if any. *)
Definition makedirs (dir : string) : run unit :=
  fun h =>
    let r := os_makedirs env h dir in
    (match r with None => Ret tt | Some e => Raise (OSError e) end,
     h ++ [Makedirs dir r]).

(** [open(file, 'w')] and [f.write(content)] *)
Definition write (file content : string) : run unit :=
  fun h =>
    let r := write_text env h file content in
    (match r with None => Ret tt | Some e => Raise (OSError e) end,
     h ++ [WriteFile file content r]).

(** The body of the loop that writes the fixed files. *)
Definition write_fixed (repo_path : string) (codebase_provider : option CodebaseProvider)
    (_ : unit) (item : string * string) : run unit :=
  let '(file_path, content) := item in
  full_path ← lift
    (match codebase_provider with
     | Some cp =>
         let filename := basename file_path in
         if contains (file_index cp) filename then
           p ← getitem (file_index cp) filename; Ret (Some p)
         else Ret None
     | None => Ret None
     end);
  let full_path :=
    match full_path with
    | Some p => if String.eqb p "" then os_path_join repo_path file_path else p
    | None => os_path_join repo_path file_path
    end in
  _ ← makedirs (os_path_dirname full_path);
  write full_path content.

Definition commit_text (analysis : LogAnalysis.t) : string :=
  "Fix: " +:+ to_text (LogAnalysis.error_type analysis) +:+ nl +:+ nl
  +:+ to_text (LogAnalysis.error_message analysis) +:+ nl +:+ nl
  +:+ "Severity: " +:+ to_text (LogAnalysis.severity analysis) +:+ nl
  +:+ "Auto-generated fix by AI Agent System" +:+ nl
  +:+ "Timestamp: " +:+ LogAnalysis.timestamp analysis +:+ nl.

(** The body of the [try] of [create_fix_branch]. *)
Definition fix_branch_body (repo_path : string) (analysis : LogAnalysis.t)
    (fixed_files : list (string * string))
    (codebase_provider : option CodebaseProvider) (branch_name : string)
    : run GitOperation.t :=
  _ ← git_checked (CheckoutNew branch_name);
  _ ← for_each (write_fixed repo_path codebase_provider) fixed_files tt;
  _ ← git_checked AddAll;
  status_result ← git StatusPorcelain;
  let stdout := match status_result with Exited _ out _ => out | SpawnError _ => "" end in
  if String.eqb (strip stdout) "" then
    _ ← git CheckoutPrevious;
    _ ← git (BranchDelete branch_name);
    mret (GitOperation.mk "" "No changes to commit" [] false)
  else
    let commit_message := commit_text analysis in
    result ← git (Commit commit_message);
    match result with
    | Exited rc _ _ =>
        if negb (rc =? 0)%Z then raise (CalledProcessError rc)
        else mret (GitOperation.mk branch_name commit_message
                     (dict_keys fixed_files) true)
    | SpawnError e => raise (OSError e)
    end.

(** [GitManagerAgent.create_fix_branch] *)
Definition create_fix_branch (repo_path : string) (analysis : LogAnalysis.t)
    (fixed_files : list (string * string))
    (codebase_provider : option CodebaseProvider) : run GitOperation.t :=
  _ ← emit (Invoked GitManager);
  error_type ← lift (str_receiver (LogAnalysis.error_type analysis));
  h ← so_far;
  let branch_name := branch_name_for error_type (now_compact env h) in
  except_called_process_error
    (fix_branch_body repo_path analysis fixed_files codebase_provider branch_name)
    (mret (GitOperation.mk branch_name "" [] false)).

(** [save_changes_callback(filename, original_content, fixed)] *)
Definition call_back (cb : callback) (filename original fixed : string) : run unit :=
  fun h =>
    let r := cb h filename original fixed in
    (match r with None => Ret tt | Some e => Raise e end,
     h ++ [Callback filename original fixed r]).

(** The loop of [process_logs] that reports each fixed file to the
    observer; nothing guards the call. *)
Definition notify_one (cb : callback) (cp : CodebaseProvider)
    (fixed_files : list (string * string)) (_ : unit) (file_path : string) : run unit :=
  let filename := basename file_path in
  if contains (file_index cp) filename then
    original_path ← lift (getitem (file_index cp) filename);
    let original_content := get_file_content (fs env) original_path in
    fixed ← lift (match dict_lookup file_path fixed_files with
                  | Some c => Ret c
                  | None => Raise (KeyError file_path)
                  end);
    call_back cb filename original_content fixed
  else mret tt.

Definition notify (save_changes_callback : option callback)
    (codebase_provider : option CodebaseProvider)
    (fixed_files : list (string * string)) : run unit :=
  match save_changes_callback, codebase_provider with
  | Some cb, Some cp => for_each (notify_one cb cp fixed_files) (dict_keys fixed_files) tt
  | _, _ => mret tt
  end.

(** The result of every early exit. *)
Definition no_result : GitOperation.t := GitOperation.mk "" "" [] false.

(** The orchestrator after construction: the repository of the git agent
    and the index built by [CodebaseProvider(repo_path)] when retrieval is
    enabled. *)
Record Orchestrator : Type := {
  repo_path : string;
  codebase_provider : option CodebaseProvider
}.

(** [Orchestrator.process_logs] *)
Definition process_logs (self : Orchestrator) (elk_logs_json : list JSON)
    (file_contents : option (gmap string string)) (codebase_context : string)
    (save_changes_callback : option callback) : run GitOperation.t :=
  let selected_log := elk_logs_json in
  match selected_log with
  | [] => mret no_result
  | _ =>
      analysis ← analyze_logs selected_log;
      _ ← lift (join_or (LogAnalysis.affected_files analysis) "Bilinmiyor");
      error_context ← locate_error analysis (codebase_provider self);
      _ ← lift (slice_prefix 100 (ErrorContext.root_cause error_context));
      solution ← propose_solution analysis (Some error_context) codebase_context;
      _ ← lift (join_or (Solution.affected_files solution) "None");
      if negb (truthy (float_is_zero env) (Solution.affected_files solution)) then
        mret no_result
      else
        n ← lift (len (Solution.affected_files solution));
        if n =? 0 then mret no_result
        else
          let file_contents := default ∅ file_contents in
          fixed_files ← generate_fix solution file_contents (codebase_provider self);
          _ ← notify save_changes_callback (codebase_provider self) fixed_files;
          match fixed_files with
          | [] => mret no_result
          | _ =>
              create_fix_branch (repo_path self) analysis fixed_files
                (codebase_provider self)
          end
  end.

End WithEnv.

(** *** The branches of the repository, read off a history

    What git does to the branches for the three branch commands the
    source runs, when they exit with status 0. *)

Record branches : Type := {
  current : string;
  previous : string;
  existing : list string
}.

Definition branch_step (b : branches) (e : event) : branches :=
  match e with
  | Subprocess (CheckoutNew name) (Exited 0 _ _) =>
      {| current := name; previous := current b; existing := name :: existing b |}
  | Subprocess CheckoutPrevious (Exited 0 _ _) =>
      {| current := previous b; previous := current b; existing := existing b |}
  | Subprocess (BranchDelete name) (Exited 0 _ _) =>
      if String.eqb name (current b) then b
      else {| current := current b; previous := previous b;
              existing := filter (fun n => negb (String.eqb n name)) (existing b) |}
  | _ => b
  end.

Definition branches_after (start : branches) (h : history) : branches :=
  fold_left branch_step h start.

End Pipeline.

(** * The terms of the claims

    What the claims speak of, read off the values and the histories of
    the embedding. *)

Module Terms.
Import PyStr Json Py Codebase Pipeline.

(** ** Histories *)

(** The agent an event belongs to. *)
Definition agent_of (e : event) : option stage :=
  match e with
  | Invoked a | Completion a _ _ => Some a
  | Subprocess _ _ | Makedirs _ _ | WriteFile _ _ _ => Some GitManager
  | Callback _ _ _ _ => None
  end.

(** Every event of [E] belongs to the agent [a]. *)
Definition only (a : stage) (E : list event) : Prop :=
  Forall (fun e => agent_of e = Some a) E.

(** Whether an event is the git agent's. *)
Definition git_event (e : event) : bool :=
  match agent_of e with Some GitManager => true | _ => false end.

(** ** The git agent *)

Definition failed_step (e : event) : bool :=
  match e with
  | Subprocess (CheckoutNew _ | AddAll | Commit _) (Exited rc _ _) => negb (rc =? 0)%Z
  | _ => false
  end.

Definition nothing_to_commit (e : event) : bool :=
  match e with
  | Subprocess StatusPorcelain (Exited _ out _) => String.eqb (strip out) ""
  | _ => false
  end.

Definition write_failure (e : event) : option string :=
  match e with
  | Makedirs _ (Some x) | WriteFile _ _ (Some x) => Some x
  | _ => None
  end.

Definition not_started (e : event) : bool :=
  match e with
  | Subprocess _ (SpawnError _) => true
  | _ => false
  end.

Definition is_write (e : event) : bool :=
  match e with
  | Makedirs _ _ | WriteFile _ _ _ => true
  | _ => false
  end.

Definition all_well (e : event) : bool :=
  negb (failed_step e) && negb (nothing_to_commit e) && negb (not_started e)
  && match write_failure e with None => true | Some _ => false end.

Definition write_failed_with (x : string) (e : event) : bool :=
  match write_failure e with
  | Some y => String.eqb x y
  | None => false
  end.

Definition failed_after_creation (e : event) : bool :=
  match e with
  | Subprocess (AddAll | Commit _) (Exited rc _ _) => negb (rc =? 0)%Z
  | _ => false
  end.

Definition removes_branch (e : event) : bool :=
  match e with
  | Subprocess (CheckoutPrevious | BranchDelete _) _ => true
  | _ => false
  end.

(** A write either goes through or raises what the file system raised,
    and that is the last thing that happened. *)
Definition writes_ok (W : list event) : Prop :=
  Forall (fun e => is_write e = true /\ write_failure e = None) W.

Definition writes_fail (x : string) (W : list event) : Prop :=
  exists W0 ev, W = W0 ++ [ev] /\ writes_ok W0 /\ is_write ev = true /\ write_failure ev = Some x.

(** The runs of the clean-up after an empty [git status]. *)
Inductive cleanup_run (b : string) : list event -> outcome GitOperation.t -> Prop :=
  | switch_not_started e :
      cleanup_run b [Subprocess CheckoutPrevious (SpawnError e)] (Raise (OSError e))
  | delete_not_started rc out err e :
      cleanup_run b [Subprocess CheckoutPrevious (Exited rc out err);
                     Subprocess (BranchDelete b) (SpawnError e)] (Raise (OSError e))
  | cleaned_up rc out err rc' out' err' :
      cleanup_run b [Subprocess CheckoutPrevious (Exited rc out err);
                     Subprocess (BranchDelete b) (Exited rc' out' err')]
        (Ret (GitOperation.mk "" "No changes to commit" [] false)).

(** The runs from [git add] on. *)
Inductive staged_run (b msg : string) (keys : list string)
    : list event -> outcome GitOperation.t -> Prop :=
  | add_not_started e :
      staged_run b msg keys [Subprocess AddAll (SpawnError e)] (Raise (OSError e))
  | add_failed rc out err :
      rc <> 0%Z ->
      staged_run b msg keys [Subprocess AddAll (Exited rc out err)]
        (Raise (CalledProcessError rc))
  | status_not_started out err e :
      staged_run b msg keys
        [Subprocess AddAll (Exited 0 out err); Subprocess StatusPorcelain (SpawnError e)]
        (Raise (OSError e))
  | no_changes out err rc out' err' C r :
      strip out' = "" ->
      cleanup_run b C r ->
      staged_run b msg keys
        (Subprocess AddAll (Exited 0 out err)
           :: Subprocess StatusPorcelain (Exited rc out' err') :: C) r
  | commit_not_started out err rc out' err' e :
      strip out' <> "" ->
      staged_run b msg keys
        [Subprocess AddAll (Exited 0 out err);
         Subprocess StatusPorcelain (Exited rc out' err');
         Subprocess (Commit msg) (SpawnError e)] (Raise (OSError e))
  | commit_failed out err rc out' err' rc2 out2 err2 :
      strip out' <> "" -> rc2 <> 0%Z ->
      staged_run b msg keys
        [Subprocess AddAll (Exited 0 out err);
         Subprocess StatusPorcelain (Exited rc out' err');
         Subprocess (Commit msg) (Exited rc2 out2 err2)]
        (Raise (CalledProcessError rc2))
  | committed out err rc out' err' out2 err2 :
      strip out' <> "" ->
      staged_run b msg keys
        [Subprocess AddAll (Exited 0 out err);
         Subprocess StatusPorcelain (Exited rc out' err');
         Subprocess (Commit msg) (Exited 0 out2 err2)]
        (Ret (GitOperation.mk b msg keys true)).

(** The runs of the body of the [try]. *)
Inductive branch_run (b msg : string) (keys : list string)
    : list event -> outcome GitOperation.t -> Prop :=
  | checkout_not_started e :
      branch_run b msg keys [Subprocess (CheckoutNew b) (SpawnError e)] (Raise (OSError e))
  | checkout_failed rc out err :
      rc <> 0%Z ->
      branch_run b msg keys [Subprocess (CheckoutNew b) (Exited rc out err)]
        (Raise (CalledProcessError rc))
  | write_failed out err W x :
      writes_fail x W ->
      branch_run b msg keys (Subprocess (CheckoutNew b) (Exited 0 out err) :: W)
        (Raise (OSError x))
  | written out err W T r :
      writes_ok W ->
      staged_run b msg keys T r ->
      branch_run b msg keys (Subprocess (CheckoutNew b) (Exited 0 out err) :: W ++ T) r.

(** What the handler of [create_fix_branch] makes of the body's outcome. *)
Definition handled (b : string) (r : outcome GitOperation.t) : outcome GitOperation.t :=
  match r with
  | Raise (CalledProcessError _) => Ret (GitOperation.mk b "" [] false)
  | _ => r
  end.

(** The name [create_fix_branch] gives the branch when it starts at [h]. *)
Definition branch_name_of (env : Env) (et : string) (h : history) : string :=
  branch_name_for et (now_compact env (h ++ [Invoked GitManager])).

(** ** The observer *)

Definition triple : Type := string * string * string.

(** One triple per listed file whose base name the index knows, in the
    order listed. *)
Definition expected (fs : string -> read_result) (cp : CodebaseProvider)
    (fixed : list (string * string)) (keys : list string) : list triple :=
  omap (fun file_path =>
          match file_index cp !! basename file_path, dict_lookup file_path fixed with
          | Some original_path, Some x =>
              Some (basename file_path, get_file_content fs original_path, x)
          | _, _ => None
          end) keys.

(** What the observer is to be told: one triple per fixed file whose base
    name the index knows, in the order of the fixed files. *)
Definition notified (fs : string -> read_result) (cp : CodebaseProvider)
    (fixed_files : list (string * string)) : list triple :=
  omap (fun file_path =>
          match file_index cp !! basename file_path, dict_lookup file_path fixed_files with
          | Some original_path, Some fixed =>
              Some (basename file_path, get_file_content fs original_path, fixed)
          | _, _ => None
          end)
       (dict_keys fixed_files).

(** What the observer was told, read off a history. *)
Definition told (E : list event) : list triple :=
  omap (fun e => match e with
                 | Callback f o x _ => Some (f, o, x)
                 | _ => None
                 end) E.

Definition is_callback (e : event) : bool :=
  match e with Callback _ _ _ _ => true | _ => false end.

Definition raised_by_callback (e : event) : option exn :=
  match e with Callback _ _ _ r => r | _ => None end.

(** A run of [process_logs] whose first four stages return: the analysis
    and the fixed files they produce, and the history then. *)
Definition reaches_generation (env : Env) (self : Orchestrator) (logs : list JSON)
    (fc : option (gmap string string)) (ctx : string) (h0 : history)
    (analysis : LogAnalysis.t) (fixed : list (string * string)) (h4 : history) : Prop :=
  logs <> [] /\
  exists h1 ec h2 solution h3 listed,
    analyze_logs env logs h0 = (Ret analysis, h1) /\
    locate_error env analysis (codebase_provider self) h1 = (Ret ec, h2) /\
    propose_solution env analysis (Some ec) ctx h2 = (Ret solution, h3) /\
    join_or env (Solution.affected_files solution) "None" = Ret listed /\
    truthy (float_is_zero env) (Solution.affected_files solution) = true /\
    generate_fix env solution (default ∅ fc) (codebase_provider self) h3 = (Ret fixed, h4).

(** ** The retrieval index *)

(** A list without its repetitions, each element where it first occurs. *)
Definition first_occurrences (l : list string) : list string :=
  fold_left (fun acc x => if decide (x ∈ acc) then acc else acc ++ [x]) l [].

(** The file name a stack-frame match refers to. *)
Definition frame_filename (m : list string) : option string :=
  match m with
  | m0 :: _ => Some (last_segment backslash (last_segment "/" m0))
  | [] => None
  end.

(** The line number a stack-frame match carries. *)
Definition frame_line (m : list string) : option string := nth_error m 1.

(** The line numbers of the stack frames the patterns match. *)
Definition line_numbers (stack_trace_text : string) : list string :=
  omap frame_line (all_matches file_patterns stack_trace_text).


(** The paths the stack trace leads to, as they are discovered. *)
Definition stack_candidates (cp : CodebaseProvider) (stack_trace_text : string)
    : list string :=
  omap (fun m => f ← frame_filename m; file_index cp !! f)
       (all_matches file_patterns stack_trace_text).

(** The paths the capitalised words of the message lead to. *)
Definition class_candidates (cp : CodebaseProvider) (error_message : string)
    : list string :=
  concat (map (fun word => firstn 2 (default [] (class_index cp !! word)))
              (concat (Regex.findall word_pattern error_message))).

(** Whether [_build_index] passes over a path for its directory. *)
Definition excluded (e : PathEntry) : bool :=
  existsb (fun dir => in_list dir (parts e)) excluded_dirs.

(** Whether [_build_index] registers a path: a file outside the excluded
    directories with a listed extension. *)
Definition indexed (extensions : list string) (e : PathEntry) : bool :=
  negb (excluded e) && is_file e && in_list (suffix_of (path_name (parts e))) extensions.

(** An entry whose file could not be read carries the error. *)
Definition honest (fs : string -> read_result) (e : FileInfo) : Prop :=
  forall err, fs (path e) = ReadErr err -> content e = read_error (OSError err).

(** What holds of a selection after the candidates [cands] were seen. *)
Definition selected (fs : string -> read_result) (t : relevance)
    (before : list FileInfo) (acc : selection) (cands : list string) : Prop :=
  (forall p, p ∈ acc.2 <-> p ∈ map path acc.1) /\
  (exists new, acc.1 = before ++ new /\
     Forall (fun e => tag e = t /\ honest fs e) new /\
     map path acc.1 =
       fold_left (fun l x => if decide (x ∈ l) then l else l ++ [x]) cands
                 (map path before)).

(** A class is known to lead to a path. *)
Definition leads_to (cp : CodebaseProvider) (cls path : string) : Prop :=
  exists paths, class_index cp !! cls = Some paths /\ path ∈ paths.

(** ** Replies *)

(** A character that can end a JSON text: it is not blank, and neither a
    back quote nor a letter of the word json. *)
Definition closes (c : ascii) : bool :=
  negb (is_space c) && negb (existsb_str (Ascii.eqb c) "`json").

(** [rest] is what is left of [s] after a prefix was read. *)
Definition left_of (s rest : string) : Prop := exists pre, s = pre +:+ rest.


(** The text ends with a digit. *)
Definition ends_digit (x : string) : Prop :=
  exists pre c, x = pre +:+ String c "" /\ is_digit c = true.

(** What a value leaves is preceded by a character that can end a text. *)
Definition closed_before (s rest : string) : Prop :=
  exists pre c, s = pre +:+ String c rest /\ closes c = true.

(** A reply inside a Markdown fence: the opening line, with or without a
    language, the text, and the closing line. *)
Definition fence (lang body : string) : string :=
  "```" +:+ lang +:+ nl +:+ body +:+ nl +:+ "```".

(** The four texts [clean_response] removes. *)
Definition fence_marks : list string :=
  ["```json" +:+ nl; "```json"; "```" +:+ nl; "```"].

(** The four removals of [clean_response], before the [strip]. *)
Definition removals (s : string) : string :=
  py_remove "```" (py_remove ("```" +:+ nl) (py_remove "```json"
    (py_remove ("```json" +:+ nl) s))).

End Terms.

(** * A repository, replies and runs to try the statements on *)

Module Scenario.
Import PyStr Json Py Codebase Pipeline Terms.

(** ** JSON texts *)

Definition q : string := String dquote "".
Definition quoted (s : string) : string := q +:+ s +:+ q.
Definition member (key value : string) : string := quoted key +:+ ": " +:+ value.
Definition object (members : list string) : string := "{" +:+ join ", " members +:+ "}".

Definition object_reply : string := object [member "error_type" (quoted "NullReference")].
Definition array_reply : string := "[" +:+ object_reply +:+ "]".
Definition nested_reply : string := "[" +:+ array_reply +:+ "]".

(** ** The repository *)

Definition foo_text : string :=
  "package com.shop;" +:+ nl +:+ "public class Foo {" +:+ nl
  +:+ "  void run(Order o) { o.total(); }" +:+ nl +:+ "}" +:+ nl.

Definition billing_text : string :=
  "class Billing {" +:+ nl +:+ "}" +:+ nl.

Definition foo_path : string := "repo/src/Foo.java".
Definition billing_path : string := "repo/src/Billing.java".
Definition locked_path : string := "repo/src/Locked.java".
Definition generated_path : string := "repo/build/Foo.java".

Definition denied : string := "[Errno 13] Permission denied".
Definition missing : string := "[Errno 2] No such file or directory".

Definition files : string -> read_result := fun p =>
  if String.eqb p foo_path then ReadOk foo_text
  else if String.eqb p billing_path then ReadOk billing_text
  else if String.eqb p generated_path then ReadOk foo_text
  else if String.eqb p locked_path then ReadErr denied
  else ReadErr missing.

Definition source_file (name : string) : PathEntry :=
  {| parts := ["repo"; "src"; name]; is_file := true |}.

Definition tree : list PathEntry :=
  [ {| parts := ["repo"; "src"]; is_file := false |};
    source_file "Foo.java"; source_file "Billing.java"; source_file "Locked.java" ].

(** The same class, but only under [build]. *)
Definition build_tree : list PathEntry :=
  [ {| parts := ["repo"; "build"]; is_file := false |};
    {| parts := ["repo"; "build"; "Foo.java"]; is_file := true |} ].

Definition provider : CodebaseProvider := _build_index files file_extensions tree.

Definition trace : string :=
  "java.lang.NullPointerException" +:+ nl
  +:+ "    at com.shop.Foo.run(Foo.java:3)" +:+ nl
  +:+ "    at com.shop.Locked.open(Locked.java:7)" +:+ nl
  +:+ "    at com.shop.Foo.main(Foo.java:9)".

Definition message : string := "Foo failed while Billing was closing".



(** ** The replies of the model *)

Definition analysis_reply : string :=
  object [ member "error_type" (quoted "Null Reference");
           member "error_message" (quoted message);
           member "stack_trace" (quoted "at com.shop.Foo.run(Foo.java:3)");
           member "affected_files" ("[" +:+ quoted "src/Foo.java" +:+ "]");
           member "severity" (quoted "high") ].

Definition locate_reply : string :=
  object [ member "error_location" (quoted "Foo.java:3");
           member "root_cause" (quoted "the order is null") ].

Definition solution_reply : string :=
  object [ member "description" (quoted "check the order");
           member "affected_files" ("[" +:+ quoted "src/Foo.java" +:+ "]");
           member "code_changes"
             (object [member "src/Foo.java" (quoted "return when the order is null")]) ].

(** A solution for a file the index does not know; its text comes with
    the request. *)
Definition notes_reply : string :=
  object [ member "description" (quoted "add the notes");
           member "affected_files" ("[" +:+ quoted "notes/New.java" +:+ "]") ].

Definition given_contents : gmap string string :=
  {["notes/New.java" := "class New { }"]}.

(** A solution that touches no file. *)
Definition idle_reply : string :=
  object [ member "description" (quoted "nothing to change");
           member "affected_files" "[]" ].

Definition code_reply : string :=
  "```java" +:+ nl +:+ "public class Foo { }" +:+ nl +:+ "```".

(** ** Git *)

Definition done : proc_result := Exited 0 "" "".

Definition git_works (c : git_cmd) : proc_result :=
  match c with
  | StatusPorcelain => Exited 0 (" M src/Foo.java" +:+ nl) ""
  | _ => done
  end.

Definition git_commit_fails (c : git_cmd) : proc_result :=
  match c with
  | Commit _ => Exited 128 "" "Author identity unknown"
  | _ => git_works c
  end.

Definition git_status_fails (c : git_cmd) : proc_result :=
  match c with
  | StatusPorcelain => Exited 128 "" "fatal: not a git repository"
  | _ => done
  end.

(** ** Environments *)

Definition env_of (solution : string) (git : git_cmd -> proc_result)
    (written : option string) : Env :=
  {| float_is_zero := fun _ => false;
     format_value := fun _ => "";
     fs := files;
     completion := fun _ a _ =>
       match a with
       | LogAnalyzer => Ret analysis_reply
       | ErrorLocator => Ret locate_reply
       | SolutionArchitect => Ret solution
       | CodeGenerator => Ret code_reply
       | GitManager => Raise (ApiError "no model behind the git agent")
       end;
     subprocess_run := fun _ c => git c;
     os_makedirs := fun _ _ => None;
     write_text := fun _ _ _ => written;
     now_isoformat := fun _ => "2024-05-01T10:00:00";
     now_compact := fun _ => "20240501-100000" |}.

Definition env_ok : Env := env_of solution_reply git_works None.
Definition env_notes : Env := env_of notes_reply git_works None.
Definition env_idle : Env := env_of idle_reply git_works None.
Definition env_commit_fails : Env := env_of solution_reply git_commit_fails None.
Definition env_status_fails : Env := env_of solution_reply git_status_fails None.
Definition env_disk_full : Env :=
  env_of solution_reply git_works (Some "[Errno 28] No space left on device").

Definition orchestrator : Orchestrator :=
  {| repo_path := "repo"; codebase_provider := Some provider |}.

Definition logs : list JSON := [JObj [("message", JStr message)]].

Definition analysis : LogAnalysis.t :=
  LogAnalysis.mk (JStr "Null Reference") (JStr message)
    (JStr "at com.shop.Foo.run(Foo.java:3)") (JArr [JStr "src/Foo.java"])
    (JStr "high") "2024-05-01T10:00:00".

Definition fixed_files : list (string * string) :=
  [("src/Foo.java", "public class Foo { }")].

Definition main_only : branches :=
  {| current := "main"; previous := "main"; existing := ["main"] |}.

Definition branch : string := "fix/null-reference-20240501-100000".

(** ** Observers *)

Definition quiet_observer : callback := fun _ _ _ _ => None.
Definition failing_observer : callback :=
  fun _ _ _ _ => Some (CallbackError "the review was closed").

End Scenario.

(** * Further terms: what the index holds and what a query returns *)

Module IndexTerms.
Import PyStr Json Py Codebase Terms.

(** [p] is the path of a file of the tree that the build registers
    under the file name [name]. *)
Definition registered (extensions : list string) (tree : list PathEntry)
    (name p : string) : Prop :=
  exists e, e ∈ tree /\ indexed extensions e = true /\
            path_name (parts e) = name /\ path_str (parts e) = p.

(** [p] is the path of a registered, readable file of the tree whose
    text declares the class [cls]. *)
Definition declares (fs : string -> read_result) (extensions : list string)
    (tree : list PathEntry) (cls p : string) : Prop :=
  exists e content, e ∈ tree /\ indexed extensions e = true /\
                    path_str (parts e) = p /\ fs p = ReadOk content /\
                    cls ∈ class_names content.

(** [p] is a path the index holds, under a file name or under a class. *)
Definition known (cp : CodebaseProvider) (p : string) : Prop :=
  (exists name, file_index cp !! name = Some p) \/
  (exists cls paths, class_index cp !! cls = Some paths /\ p ∈ paths).

End IndexTerms.

(** * Further terms: what the git agent writes *)

Module GitTerms.
Import PyStr Json Py Codebase Pipeline Terms.

(** Where a fixed file is written: at the path the index has for its
    base name, else under the repository. *)
Definition target (repo_path : string) (codebase_provider : option CodebaseProvider)
    (file_path : string) : string :=
  match codebase_provider with
  | Some cp =>
      match file_index cp !! basename file_path with
      | Some p => if String.eqb p "" then os_path_join repo_path file_path else p
      | None => os_path_join repo_path file_path
      end
  | None => os_path_join repo_path file_path
  end.

(** The events of writing every fixed file, each after its directory was
    made, when nothing fails. *)
Definition writes_of (repo_path : string) (codebase_provider : option CodebaseProvider)
    (fixed_files : list (string * string)) : list event :=
  flat_map (fun item =>
              let full_path := target repo_path codebase_provider item.1 in
              [Makedirs (os_path_dirname full_path) None;
               WriteFile full_path item.2 None])
           fixed_files.

(** The three git events that follow the writes in a run that commits. *)
Definition commits (message : string) (T : list event) : Prop :=
  exists out err rc out' err' out2 err2,
    T = [Subprocess AddAll (Exited 0 out err);
         Subprocess StatusPorcelain (Exited rc out' err');
         Subprocess (Commit message) (Exited 0 out2 err2)] /\
    strip out' <> "".

End GitTerms.

(** * Further terms: what the code generator asks and returns *)

Module FixTerms.
Import PyStr Json Py Codebase Pipeline Terms.

(** A completion asked by the code generator for one of the listed
    files, with a text to fix that is not empty. *)
Definition fix_request (files : list JSON) (e : event) : Prop :=
  exists p change description original r,
    e = Completion CodeGenerator (FixPrompt p change description original) r /\
    JStr p ∈ files /\ original <> "".

(** [c] is the cleaned reply to a request for the file [k]. *)
Definition answered (E : list event) (k c : string) : Prop :=
  exists change description original reply,
    Completion CodeGenerator (FixPrompt k change description original) (Ret reply) ∈ E /\
    c = clean_code reply.

End FixTerms.

(** * Further terms: the stages of a run *)

Module StageTerms.
Import PyStr Json Py Codebase Pipeline Terms.

(** The agents a history shows starting, in the order they start. *)
Definition stages_invoked (E : list event) : list stage :=
  omap (fun e => match e with Invoked a => Some a | _ => None end) E.

(** The five stages in the order of the pipeline. *)
Definition pipeline : list stage :=
  [LogAnalyzer; ErrorLocator; SolutionArchitect; CodeGenerator; GitManager].

End StageTerms.

(** * Further inputs to try the statements on *)

Module Trials.
Import PyStr Json Py Codebase Pipeline Terms Scenario.

(** What the query of the scenario finds. *)
Definition found : list FileInfo :=
  match find_relevant_files files provider trace message 5 with
  | Ret l => l
  | Raise _ => []
  end.

(** An orchestrator built with retrieval disabled. *)
Definition bare : Orchestrator :=
  {| repo_path := "repo"; codebase_provider := None |}.

(** The solution the architect of the scenario proposes. *)
Definition solution : Solution.t :=
  Solution.mk (JStr "check the order") (JArr [JStr "src/Foo.java"])
    (JObj [("src/Foo.java", JStr "return when the order is null")]) (JArr []).

End Trials.

(** * Facts

    ** Dictionaries and runs *)

Section MapFacts.
Import Py.

Lemma contains_getitem {V} (d : gmap string V) k :
  contains d k = true -> exists v, getitem d k = Ret v.
Proof.
  unfold contains, getitem. intros H. apply bool_decide_eq_true in H.
  destruct H as [v ->]. eauto.
Qed.

Lemma contains_false {V} (d : gmap string V) k :
  contains d k = false -> d !! k = None.
Proof.
  unfold contains. intros H. apply bool_decide_eq_false in H.
  destruct (d !! k) eqn:E; [|reflexivity]. exfalso. apply H. eauto.
Qed.

Lemma contains_lookup {V} (d : gmap string V) k :
  contains d k = true -> exists v, d !! k = Some v /\ getitem d k = Ret v.
Proof.
  unfold contains, getitem. intros H. apply bool_decide_eq_true in H.
  destruct H as [v ->]. eauto.
Qed.

End MapFacts.

(** ** The pipeline *)

Section PipelineFacts.
Import PyStr Json Py Codebase Pipeline Terms.
Variable env : Env.

Ltac step_run :=
  unfold mbind, run_bind, mret, run_ret, emit, call_claude, lift, raise, so_far in *.

Lemma bind_ret {A B} (m : run A) (f : A -> run B) h a h1 :
  m h = (Ret a, h1) -> (m ≫= f) h = f a h1.
Proof. intros H. unfold mbind, run_bind. now rewrite H. Qed.

Lemma bind_raise {A B} (m : run A) (f : A -> run B) h e h1 :
  m h = (Raise e, h1) -> (m ≫= f) h = (Raise e, h1).
Proof. intros H. unfold mbind, run_bind. now rewrite H. Qed.

Lemma bind_inv {A B} (m : run A) (f : A -> run B) h r h2 :
  (m ≫= f) h = (r, h2) ->
  (exists a h1, m h = (Ret a, h1) /\ f a h1 = (r, h2)) \/
  (exists e, m h = (Raise e, h2) /\ r = Raise e).
Proof.
  unfold mbind, run_bind. destruct (m h) as [[a|e] h1]; intros H.
  - left; eauto.
  - right. inversion H; subst. eauto.
Qed.

(** C2: for an empty batch of logs [process_logs] returns the result with
    [success] false, an empty branch name and no files changed, and it
    leaves the history as it was: no agent is invoked, no completion is
    asked for and no git command is run. *)
Theorem C2_empty_batch (self : Orchestrator) fc ctx cb h :
  process_logs env self [] fc ctx cb h = (Ret (GitOperation.mk "" "" [] false), h).
Proof. reflexivity. Qed.


Ltac close_only :=
  eexists; split;
  [ rewrite <- ?app_assoc; reflexivity
  | unfold only; repeat constructor ].

Lemma analyze_logs_only logs h r h' :
  analyze_logs env logs h = (r, h') -> exists E, h' = h ++ E /\ only LogAnalyzer E.
Proof.
  unfold analyze_logs. step_run.
  destruct (completion env _ _ _) as [response|e]; [|intros [= <- <-]; close_only].
  destruct (decode_reply response); intros [= <- <-]; close_only.
Qed.

Lemma locate_error_only a cp h r h' :
  locate_error env a cp h = (r, h') -> exists E, h' = h ++ E /\ only ErrorLocator E.
Proof.
  unfold locate_error. step_run.
  destruct (locate_prompt env a cp) as [[paths [p|]]|e]; try (intros [= <- <-]; close_only).
  destruct (completion env _ _ _) as [response|e]; [|intros [= <- <-]; close_only].
  destruct (decode_reply response); [|intros [= <- <-]; close_only].
  destruct (slice_prefix _ _); intros [= <- <-]; close_only.
Qed.

Lemma propose_solution_only a ec ctx h r h' :
  propose_solution env a ec ctx h = (r, h') ->
  exists E, h' = h ++ E /\ only SolutionArchitect E.
Proof.
  unfold propose_solution. step_run.
  destruct (join_or env _ _); [|intros [= <- <-]; close_only].
  destruct (completion env _ _ _) as [response|e]; [|intros [= <- <-]; close_only].
  destruct (decode_reply response); [|intros [= <- <-]; close_only].
  destruct (len _); intros [= <- <-]; close_only.
Qed.


Lemma propose_solution_ret a ec ctx h s h' :
  propose_solution env a ec ctx h = (Ret s, h') ->
  exists x, join_or env (LogAnalysis.affected_files a) "Bilinmiyor" = Ret x.
Proof.
  unfold propose_solution. step_run.
  destruct (join_or env _ _); [eauto | discriminate].
Qed.

Lemma locate_error_ret a cp h ec h' :
  locate_error env a cp h = (Ret ec, h') ->
  exists x, slice_prefix 100 (ErrorContext.root_cause ec) = Ret x.
Proof.
  unfold locate_error. step_run.
  destruct (locate_prompt env a cp) as [[paths [p|]]|e]; try discriminate.
  destruct (completion env _ _ _) as [response|e]; [|discriminate].
  destruct (decode_reply response); [|discriminate].
  destruct (slice_prefix _ _) eqn:E; [|discriminate].
  intros [= <- <-]. eauto.
Qed.

(** C3: in a run whose analysis, localisation and proposal return, and
    whose proposed solution has the empty list as [affected_files],
    [process_logs] stops after the proposal with the result whose
    [success] is false, and neither [generate_fix] nor
    [create_fix_branch] is invoked in that run. *)
Theorem C3_no_files_to_change (self : Orchestrator) logs fc ctx cb h0
    analysis h1 ectx h2 solution h3 :
  logs <> [] ->
  analyze_logs env logs h0 = (Ret analysis, h1) ->
  locate_error env analysis (codebase_provider self) h1 = (Ret ectx, h2) ->
  propose_solution env analysis (Some ectx) ctx h2 = (Ret solution, h3) ->
  Solution.affected_files solution = JArr [] ->
  process_logs env self logs fc ctx cb h0 = (Ret no_result, h3) /\
  GitOperation.success no_result = false /\
  exists E, h3 = h0 ++ E /\
    (Invoked CodeGenerator ∉ E) /\ (Invoked GitManager ∉ E).
Proof.
  intros Hne H1 H2 H3 Hfiles.
  destruct (propose_solution_ret _ _ _ _ _ _ H3) as [x Hx].
  destruct (locate_error_ret _ _ _ _ _ H2) as [y Hy].
  split; [|split; [reflexivity|]].
  - destruct logs as [|l logs]; [congruence|]. unfold process_logs.
    rewrite (bind_ret _ _ _ _ _ H1). step_run. rewrite Hx, H2, Hy, H3, Hfiles.
    reflexivity.
  - destruct (analyze_logs_only _ _ _ _ H1) as (E1 & -> & O1).
    destruct (locate_error_only _ _ _ _ _ H2) as (E2 & -> & O2).
    destruct (propose_solution_only _ _ _ _ _ _ H3) as (E3 & -> & O3).
    exists (E1 ++ E2 ++ E3). split; [now rewrite <- !app_assoc|].
    unfold only in *. rewrite !Forall_forall in *.
    split; intros Hin; rewrite !elem_of_app in Hin;
      destruct Hin as [Hin|[Hin|Hin]];
      (apply O1 in Hin || apply O2 in Hin || apply O3 in Hin); discriminate.
Qed.

(** *** The git agent *)

Lemma write_fixed_spec repo cp u item h r h' :
  write_fixed env repo cp u item h = (r, h') ->
  exists W, h' = h ++ W /\
    ((r = Ret tt /\ writes_ok W) \/ (exists x, r = Raise (OSError x) /\ writes_fail x W)).
Proof.
  destruct item as [file_path content]. unfold write_fixed.
  set (o := match cp with Some _ => _ | None => _ end).
  assert (Ho : exists v, o = Ret v).
  { subst o. destruct cp as [cp|]; [|eauto].
    destruct (contains _ _) eqn:C; [|eauto].
    destruct (contains_getitem _ _ C) as [v ->]. simpl. eauto. }
  destruct Ho as [v ->]. step_run. unfold makedirs, write.
  destruct (os_makedirs env h _) as [x|] eqn:M.
  - intros [= <- <-]. eexists; split; [reflexivity|]. right. exists x. split; [reflexivity|].
    eexists [], _. split; [reflexivity|]. repeat split. constructor.
  - destruct (write_text env _ _ _) as [x|] eqn:Wr; intros [= <- <-];
      (eexists; split; [rewrite <- app_assoc; reflexivity|]).
    + right. exists x. split; [reflexivity|].
      eexists [_], _. split; [reflexivity|]. repeat split. repeat constructor.
    + left. split; [reflexivity|]. repeat constructor.
Qed.

Lemma write_loop_spec repo cp fixed h r h' :
  for_each (write_fixed env repo cp) fixed tt h = (r, h') ->
  exists W, h' = h ++ W /\
    ((r = Ret tt /\ writes_ok W) \/ (exists x, r = Raise (OSError x) /\ writes_fail x W)).
Proof.
  revert h. induction fixed as [|item fixed IH]; intros h; simpl.
  - intros [= <- <-]. exists []. rewrite app_nil_r. split; [reflexivity|].
    left. split; [reflexivity|constructor].
  - unfold mbind, run_bind.
    destruct (write_fixed env repo cp tt item h) as [[[]|x] h1] eqn:E1;
      destruct (write_fixed_spec _ _ _ _ _ _ _ E1) as (W1 & -> & [[? Hok]|(x' & Hx & Hf)]);
      try discriminate.
    + intros H2. destruct (IH _ H2) as (W2 & -> & Hcase).
      exists (W1 ++ W2). split; [now rewrite app_assoc|].
      destruct Hcase as [[-> Hok2]|(x0 & -> & W0 & ev & -> & Hok0 & Hev)].
      * left. split; [reflexivity|]. apply Forall_app; auto.
      * right. exists x0. split; [reflexivity|]. exists (W1 ++ W0), ev.
        split; [now rewrite app_assoc|]. split; [apply Forall_app; auto|assumption].
    + intros [= <- <-]. exists W1. split; [reflexivity|]. right. inversion Hx; subst. eauto.
Qed.


Lemma git_inv c h r h' :
  git env c h = (r, h') ->
  (exists rc out err, r = Ret (Exited rc out err) /\
     h' = h ++ [Subprocess c (Exited rc out err)]) \/
  (exists e, r = Raise (OSError e) /\ h' = h ++ [Subprocess c (SpawnError e)]).
Proof.
  unfold git. destruct (subprocess_run env h c) as [rc out err|e]; intros [= <- <-].
  - left. eauto 6.
  - right. eauto.
Qed.

Lemma git_checked_inv c h r h' :
  git_checked env c h = (r, h') ->
  (exists out err, r = Ret (Exited 0 out err) /\
     h' = h ++ [Subprocess c (Exited 0 out err)]) \/
  (exists rc out err, rc <> 0%Z /\ r = Raise (CalledProcessError rc) /\
     h' = h ++ [Subprocess c (Exited rc out err)]) \/
  (exists e, r = Raise (OSError e) /\ h' = h ++ [Subprocess c (SpawnError e)]).
Proof.
  unfold git_checked. intros H.
  apply bind_inv in H as [(a & h1 & Ha & H)|(e & Ha & ->)];
    apply git_inv in Ha as [(rc & out & err & Hr & ->)|(e' & Hr & ->)]; try discriminate.
  - inversion Hr; subst. step_run. destruct (Z.eqb_spec rc 0) as [->|Hne].
    + inversion H; subst. left. eauto.
    + inversion H; subst. right. left. eauto 8.
  - inversion Hr; subst. right. right. eauto.
Qed.

Lemma cleanup_spec b h r h' :
  (git env CheckoutPrevious ≫= fun _ =>
   git env (BranchDelete b) ≫= fun _ =>
   mret (GitOperation.mk "" "No changes to commit" [] false)) h = (r, h') ->
  exists C, h' = h ++ C /\ cleanup_run b C r.
Proof.
  intros H.
  apply bind_inv in H as [(a & h1 & Ha & H)|(e & Ha & ->)];
    apply git_inv in Ha as [(rc & out & err & Hr & ->)|(e' & Hr & ->)]; try discriminate.
  - apply bind_inv in H as [(a' & h2 & Ha' & H)|(e & Ha' & ->)];
      apply git_inv in Ha' as [(rc' & out' & err' & Hr' & ->)|(e' & Hr' & ->)];
      try discriminate.
    + inversion H; subst. eexists. split; [rewrite <- app_assoc; reflexivity|]. constructor.
    + inversion Hr'; subst. eexists. split; [rewrite <- app_assoc; reflexivity|]. constructor.
  - inversion Hr; subst. eexists. split; [reflexivity|]. constructor.
Qed.


Lemma fix_branch_body_spec repo a fixed cp b h r h' :
  fix_branch_body env repo a fixed cp b h = (r, h') ->
  exists B, h' = h ++ B /\ branch_run b (commit_text env a) (dict_keys fixed) B r.
Proof.
  unfold fix_branch_body. intros H.
  apply bind_inv in H as [(a0 & h1 & Ha & H)|(e & Ha & ->)];
    apply git_checked_inv in Ha
      as [(out & err & Hr & ->)|[(rc & out & err & Hrc & Hr & ->)|(e' & Hr & ->)]];
    try discriminate;
    try (inversion Hr; subst; eexists; split; [reflexivity|]; now constructor).
  clear Hr a0.
  apply bind_inv in H as [([] & h2 & Hw & H)|(x & Hw & ->)];
    apply write_loop_spec in Hw as (W & -> & [[? Hok]|(x' & Hx & Hf)]); try discriminate.
  2:{ inversion Hx; subst. exists (Subprocess (CheckoutNew b) (Exited 0 out err) :: W).
      split; [now rewrite <- app_assoc|]. now constructor. }
  assert (exists T, h' = ((h ++ [Subprocess (CheckoutNew b) (Exited 0 out err)]) ++ W) ++ T
                    /\ staged_run b (commit_text env a) (dict_keys fixed) T r) as (T & -> & HT).
  { apply bind_inv in H as [(a1 & h3 & Ha & H)|(e & Ha & ->)];
      apply git_checked_inv in Ha
        as [(out1 & err1 & Hr & ->)|[(rc & out1 & err1 & Hrc & Hr & ->)|(e' & Hr & ->)]];
      try discriminate;
      try (inversion Hr; subst; eexists; split; [reflexivity|]; now constructor).
    clear Hr a1.
    apply bind_inv in H as [(st & h4 & Ha & H)|(e & Ha & ->)];
      apply git_inv in Ha as [(rc & out2 & err2 & Hr & ->)|(e' & Hr & ->)];
      try discriminate.
    2:{ inversion Hr; subst. eexists. split; [rewrite <- app_assoc; reflexivity|]. constructor. }
    inversion Hr; subst; clear Hr.
    destruct (String.eqb_spec (strip out2) "") as [Hblank|Hsome].
    - apply cleanup_spec in H as (C & -> & HC).
      eexists. split; [rewrite <- ?app_assoc; reflexivity|]. simpl. now constructor.
    - apply bind_inv in H as [(res & h5 & Ha & H)|(e & Ha & ->)];
        apply git_inv in Ha as [(rc3 & out3 & err3 & Hr & ->)|(e' & Hr & ->)];
        try discriminate.
      2:{ inversion Hr; subst. eexists. split; [rewrite <- ?app_assoc; reflexivity|].
          now constructor. }
      inversion Hr; subst; clear Hr. step_run.
      destruct (Z.eqb_spec rc3 0) as [->|Hne]; simpl in H; inversion H; subst;
        (eexists; split; [rewrite <- ?app_assoc; reflexivity|]; now constructor). }
  exists (Subprocess (CheckoutNew b) (Exited 0 out err) :: W ++ T).
  split; [now rewrite <- ?app_assoc|]. now constructor.
Qed.

Lemma create_fix_branch_spec repo a fixed cp h r h' et :
  LogAnalysis.error_type a = JStr et ->
  create_fix_branch env repo a fixed cp h = (r, h') ->
  exists B r0, h' = h ++ Invoked GitManager :: B /\
    branch_run (branch_name_of env et h) (commit_text env a) (dict_keys fixed) B r0 /\
    r = handled (branch_name_of env et h) r0.
Proof.
  intros Het. unfold create_fix_branch. rewrite Het. step_run. simpl.
  unfold except_called_process_error.
  fold (branch_name_of env et h).
  destruct (fix_branch_body _ _ _ _ _ _ _) as [r0 h1] eqn:Hb.
  apply fix_branch_body_spec in Hb as (B & -> & HB).
  intros H. exists B, r0.
  destruct r0 as [g|[]]; inversion H; subst; rewrite <- app_assoc; simpl; auto.
Qed.


Lemma writes_ok_quiet (f : event -> bool) W :
  (forall e, is_write e = true -> write_failure e = None -> f e = false) ->
  writes_ok W -> existsb f W = false.
Proof.
  intros Hf. induction 1 as [|e W [He1 He2] _ IH]; simpl; [reflexivity|].
  now rewrite (Hf e He1 He2), IH.
Qed.

Lemma writes_fail_quiet (f : event -> bool) x W :
  (forall e, is_write e = true -> f e = false) ->
  writes_fail x W -> existsb f W = false.
Proof.
  intros Hf (W0 & ev & -> & Hok & Hev & _). rewrite existsb_app. simpl.
  rewrite (Hf ev Hev), (writes_ok_quiet f W0); [reflexivity| |assumption].
  intros e He _. now apply Hf.
Qed.

Lemma writes_ok_well W : writes_ok W -> forallb all_well W = true.
Proof.
  induction 1 as [|e W [He1 He2] _ IH]; simpl; [reflexivity|]. rewrite IH.
  unfold all_well. rewrite He2. destruct e; try discriminate; reflexivity.
Qed.

Lemma writes_fail_with x y W :
  writes_fail y W -> existsb (write_failed_with x) W = true -> x = y.
Proof.
  intros (W0 & ev & -> & Hok & Hev & Hy). rewrite existsb_app. simpl.
  rewrite (writes_ok_quiet _ W0); [|intros e _ He; unfold write_failed_with; now rewrite He|assumption].
  unfold write_failed_with. rewrite Hy. simpl. rewrite orb_false_r.
  now intros ?%String.eqb_eq.
Qed.

Lemma writes_ok_no_failure x W :
  writes_ok W -> existsb (write_failed_with x) W = false.
Proof.
  apply writes_ok_quiet. intros e _ He. unfold write_failed_with. now rewrite He.
Qed.

Ltac quiet :=
  repeat match goal with
  | H : writes_ok ?W, H' : context [existsb (write_failed_with ?x) ?W] |- _ =>
      rewrite (writes_ok_no_failure x W H) in H'
  | H : writes_ok ?W |- context [existsb ?f ?W] =>
      rewrite (writes_ok_quiet f W ltac:(now intros [] ? ?) H)
  | H : writes_fail ?x ?W |- context [existsb ?f ?W] =>
      rewrite (writes_fail_quiet f x W ltac:(now intros [] ?) H)
  | H : writes_ok ?W, H' : context [existsb ?f ?W] |- _ =>
      rewrite (writes_ok_quiet f W ltac:(now intros [] ? ?) H) in H'
  | H : writes_fail ?x ?W, H' : context [existsb ?f ?W] |- _ =>
      rewrite (writes_fail_quiet f x W ltac:(now intros [] ?) H) in H'
  end.

Ltac nonzero :=
  repeat match goal with
  | H : ?rc <> 0%Z |- _ => apply Z.eqb_neq in H
  | H : strip ?s = "" |- _ => apply String.eqb_eq in H
  | H : strip ?s <> "" |- _ => apply String.eqb_neq in H
  end.

Ltac settle :=
  repeat match goal with
  | Hb : ?b = ?v |- context [?b] =>
      lazymatch v with true => idtac | false => idtac end;
      lazymatch b with true => fail | false => fail | _ => idtac end;
      rewrite Hb
  | Hb : ?b = ?v, H : context [?b] |- _ =>
      lazymatch v with true => idtac | false => idtac end;
      lazymatch b with true => fail | false => fail | _ => idtac end;
      rewrite Hb in H
  end.

(** C1 (amended): for an analysis whose error type is a string, and a run
    of [create_fix_branch] that adds the events [E] to the history: when
    [git checkout -b], [git add -A] or [git commit] exits with a status
    other than 0, a result is returned and its [success] is false; when
    [git status] prints nothing and every git process could be started,
    the result is the one of "No changes to commit", [success] false; when
    creating a directory or writing a fixed file fails, no result is
    returned: the call raises the [OSError] of the file system; and a
    result with [success] true is returned only when no step failed, no
    write failed and there was something to commit. *)
Theorem C1_failure_is_reported repo a fixed cp h r E et :
  LogAnalysis.error_type a = JStr et ->
  create_fix_branch env repo a fixed cp h = (r, h ++ E) ->
  (existsb failed_step E = true ->
     exists g, r = Ret g /\ GitOperation.success g = false) /\
  (existsb nothing_to_commit E = true -> existsb not_started E = false ->
     r = Ret (GitOperation.mk "" "No changes to commit" [] false)) /\
  (forall x, existsb (write_failed_with x) E = true -> r = Raise (OSError x)) /\
  (forall g, r = Ret g -> GitOperation.success g = true ->
     forallb all_well E = true).
Proof.
  intros Het Hrun.
  destruct (create_fix_branch_spec _ _ _ _ _ _ _ _ Het Hrun) as (B & r0 & HE & HB & ->).
  apply app_inv_head in HE. subst E. clear Hrun.
  inversion HB as [ | | ? ? W x HW | ? ? W T ? HW HT ]; subst; clear HB;
    [ | | | inversion HT as [ | | | ? ? ? ? ? C ? Hb HC | | | ]; subst; clear HT;
            try (inversion HC; subst; clear HC) ];
    nonzero;
    repeat split; simpl; rewrite ?existsb_app, ?forallb_app; simpl;
    intros;
    repeat match goal with
           | H : context [existsb _ (_ ++ _)] |- _ => rewrite existsb_app in H
           end;
    quiet; simpl in *; settle; simpl in *; try discriminate; eauto;
    try match goal with
        | H : Ret _ = Ret _ |- _ => inversion H; subst; simpl in *; try discriminate
        end.
  all: try (rewrite writes_ok_well by assumption; reflexivity).
  - f_equal. f_equal. symmetry. eapply writes_fail_with; eauto.
  - rewrite writes_ok_well by assumption. unfold all_well. simpl.
    match goal with Hs : (strip _ =? "")%string = false |- _ => rewrite Hs end.
    reflexivity.
Qed.

Lemma branch_step_write b e : is_write e = true -> branch_step b e = b.
Proof. now destruct e. Qed.

Lemma branches_after_writes b W :
  Forall (fun e => is_write e = true) W -> branches_after b W = b.
Proof.
  unfold branches_after. intros H. revert b.
  induction H as [|e W He _ IH]; intros b; simpl; [reflexivity|].
  now rewrite branch_step_write.
Qed.

Lemma writes_ok_are_writes W : writes_ok W -> Forall (fun e => is_write e = true) W.
Proof. unfold writes_ok. intros H. eapply Forall_impl; [exact H|]. now intros e []. Qed.

Lemma branch_name_for_nonempty et ts : branch_name_for et ts <> "".
Proof. discriminate. Qed.

(** C10 (amended): when [git add -A] or [git commit] exits with a status
    other than 0 in a run of [create_fix_branch], the result has
    [success] false, the name of the new branch (which is not empty) as
    [branch_name], an empty commit message and no files changed; no
    command that leaves or deletes the branch is run, so the new branch
    exists and is the one checked out. *)
Theorem C10_branch_kept repo a fixed cp h r E et :
  LogAnalysis.error_type a = JStr et ->
  create_fix_branch env repo a fixed cp h = (r, h ++ E) ->
  existsb failed_after_creation E = true ->
  let b := branch_name_for et (now_compact env (h ++ [Invoked GitManager])) in
  r = Ret (GitOperation.mk b "" [] false) /\
  b <> "" /\
  existsb removes_branch E = false /\
  forall start,
    current (branches_after start E) = b /\ b ∈ existing (branches_after start E).
Proof.
  intros Het Hrun Hfail b.
  destruct (create_fix_branch_spec _ _ _ _ _ _ _ _ Het Hrun) as (B & r0 & HE & HB & ->).
  apply app_inv_head in HE. subst E. clear Hrun. fold (branch_name_of env et h) in b.
  split; [|split; [apply branch_name_for_nonempty|]].
  - inversion HB as [ | | ? ? W x HW | ? ? W T ? HW HT ]; subst; clear HB;
      [ | | | inversion HT as [ | | | ? ? ? ? ? C ? Hb HC | | | ]; subst; clear HT;
              try (inversion HC; subst; clear HC) ];
      simpl in Hfail; rewrite ?existsb_app in Hfail; quiet; simpl in Hfail;
      nonzero; settle; try discriminate; reflexivity.
  - inversion HB as [ | | ? ? W x HW | ? ? W T ? HW HT ]; subst; clear HB;
      [ | | | inversion HT as [ | | | ? ? ? ? ? C ? Hb HC | | | ]; subst; clear HT;
              try (inversion HC; subst; clear HC) ];
      simpl in Hfail; rewrite ?existsb_app in Hfail; quiet; simpl in Hfail;
      nonzero; settle; try discriminate;
      (split; [simpl; rewrite ?existsb_app; quiet; reflexivity|]);
      intros start; unfold branches_after; simpl; rewrite fold_left_app;
      fold (branches_after
              {| current := branch_name_of env et h; previous := current start;
                 existing := branch_name_of env et h :: existing start |} W);
      rewrite (branches_after_writes _ W (writes_ok_are_writes W HW)); simpl;
      (split; [reflexivity|apply list_elem_of_here]).
Qed.

(** *** The locator and the observer *)

(** C8: without an index [locate_error] assembles no prompt, so the
    completion call finds the prompt unset and the call raises
    [UnboundLocalError] before any completion is asked for; with an
    index the prompt is always assembled when the query returns. *)
Theorem C8_prompt_unbound_without_index (analysis : LogAnalysis.t) (h : history) :
  locate_prompt env analysis None = Ret ([], None) /\
  locate_error env analysis None h =
    (Raise (UnboundLocalError "prompt"), h ++ [Invoked ErrorLocator]) /\
  forall cp, match locate_prompt env analysis (Some cp) with
             | Ret (_, None) => False
             | _ => True
             end.
Proof.
  split; [reflexivity|]. split; [reflexivity|].
  intros cp. unfold locate_prompt.
  destruct (as_str (LogAnalysis.stack_trace analysis)); simpl; [|exact I].
  destruct (as_str (LogAnalysis.error_message analysis)); simpl; [|exact I].
  destruct (find_relevant_files _ _ _ _ _); simpl; exact I.
Qed.


Lemma dict_lookup_key {V} k (d : list (string * V)) :
  k ∈ dict_keys d -> exists v, dict_lookup k d = Some v.
Proof.
  induction d as [|[k' v'] d IH]; simpl; intros H.
  - inversion H.
  - destruct (String.eqb_spec k k'); [eauto|].
    apply IH. inversion H; subst; [congruence|assumption].
Qed.

Lemma notify_loop cb cp fixed keys h r h' :
  Forall (fun k => k ∈ dict_keys fixed) keys ->
  for_each (notify_one env cb cp fixed) keys tt h = (r, h') ->
  exists N, h' = h ++ N /\
    forallb is_callback N = true /\
    told N `prefix_of` expected (fs env) cp fixed keys /\
    match r with
    | Ret _ => told N = expected (fs env) cp fixed keys /\
               Forall (fun e => raised_by_callback e = None) N
    | Raise e => exists N0 ev, N = N0 ++ [ev] /\ raised_by_callback ev = Some e
    end.
Proof.
  intros Hkeys. unfold expected. revert h.
  induction Hkeys as [|k keys Hk _ IH]; intros h; simpl.
  - intros [= <- <-]. exists []. rewrite app_nil_r. split; [reflexivity|].
    split; [reflexivity|]. split; [apply prefix_nil|]. split; [reflexivity|constructor].
  - unfold mbind, run_bind, notify_one at 1.
    destruct (dict_lookup_key _ _ Hk) as [v Hv].
    destruct (contains (file_index cp) (basename k)) eqn:C.
    + destruct (contains_getitem _ _ C) as [p Hp]. rewrite Hp.
      unfold getitem in Hp. destruct (file_index cp !! basename k) as [p'|] eqn:Hidx;
        [|discriminate]. inversion Hp; subst p'; clear Hp.
      unfold lift, call_back at 1. rewrite Hv. simpl.
      destruct (cb h _ _ _) as [e|] eqn:Hcb; simpl.
      * intros [= <- <-]. eexists [_]. split; [reflexivity|]. simpl. rewrite ?Hidx, ?Hv.
        split; [reflexivity|]. split; [apply prefix_cons, prefix_nil|].
        eexists [], _. split; reflexivity.
      * intros H. apply IH in H as (N & -> & Hcbs & Hpre & Hres).
        eexists (_ :: N). split; [rewrite <- app_assoc; reflexivity|].
        simpl. rewrite ?Hidx, ?Hv. split; [assumption|]. split; [now apply prefix_cons|].
        destruct r as [[]|e].
        -- destruct Hres as [-> Hnone]. split; [reflexivity|]. constructor; [reflexivity|assumption].
        -- destruct Hres as (N0 & ev & -> & Hev). eexists (_ :: N0), ev. split; [reflexivity|assumption].
    + apply contains_false in C. simpl. intros H. apply IH in H as (N & -> & Hcbs & Hpre & Hres).
      exists N. split; [reflexivity|]. rewrite C. auto.
Qed.


Lemma truthy_len fz v n : truthy fz v = true -> len v = Ret n -> n <> 0.
Proof.
  destruct v as [| | | |s|l|d]; simpl; try discriminate; intros Ht [= <-].
  - destruct s; [discriminate|simpl; lia].
  - destruct l; [discriminate|simpl; lia].
  - destruct d; [discriminate|simpl; lia].
Qed.

Lemma propose_solution_len a ec ctx h s h' :
  propose_solution env a ec ctx h = (Ret s, h') ->
  exists n, len (Solution.affected_files s) = Ret n.
Proof.
  unfold propose_solution. step_run.
  destruct (join_or env _ _); [|discriminate].
  destruct (completion env _ _ _) as [response|e]; [|discriminate].
  destruct (decode_reply response); [|discriminate].
  destruct (len _) eqn:E; [|discriminate].
  intros [= <- <-]. eauto.
Qed.

Lemma process_logs_after_generation self logs fc ctx cb h0 analysis fixed h4 :
  reaches_generation env self logs fc ctx h0 analysis fixed h4 ->
  process_logs env self logs fc ctx cb h0 =
  (notify env cb (codebase_provider self) fixed ≫= fun _ =>
     match fixed with
     | [] => mret no_result
     | _ => create_fix_branch env (repo_path self) analysis fixed (codebase_provider self)
     end) h4.
Proof.
  intros (Hne & h1 & ec & h2 & s & h3 & x & H1 & H2 & H3 & Hj & Ht & H4).
  destruct (propose_solution_ret _ _ _ _ _ _ H3) as [y Hy].
  destruct (locate_error_ret _ _ _ _ _ H2) as [z Hz].
  destruct (propose_solution_len _ _ _ _ _ _ H3) as [n Hn].
  pose proof (truthy_len _ _ _ Ht Hn) as Hn0.
  destruct logs as [|l logs]; [congruence|]. unfold process_logs.
  rewrite (bind_ret _ _ _ _ _ H1). step_run. rewrite Hy, H2, Hz, H3, Hj, Ht. simpl.
  rewrite Hn. destruct (Nat.eqb_spec n 0) as [|_]; [contradiction|].
  rewrite H4. reflexivity.
Qed.

Lemma Forall_keys (fixed : list (string * string)) :
  Forall (fun k => k ∈ dict_keys fixed) (dict_keys fixed).
Proof. apply Forall_forall. auto. Qed.

(** C5 (amended): in a run that reaches code generation with an index and
    an observer, the observer is called, in the order of the fixed files,
    once for each fixed file whose base name the index knows, with the
    base name, the content of the indexed file and the fixed content, and
    for no other file; when it returns each time, the run goes on to the
    git agent (or ends without result when nothing was fixed); when it
    raises, the calls stop there and [process_logs] raises what it
    raised. *)
Theorem C5_observer_told self cp logs fc ctx cb h0 analysis fixed h4 r h' :
  reaches_generation env self logs fc ctx h0 analysis fixed h4 ->
  codebase_provider self = Some cp ->
  process_logs env self logs fc ctx (Some cb) h0 = (r, h') ->
  exists N,
    forallb is_callback N = true /\
    told N `prefix_of` notified (fs env) cp fixed /\
    ((Forall (fun e => raised_by_callback e = None) N /\
      told N = notified (fs env) cp fixed /\
      (r, h') = match fixed with
                | [] => (Ret no_result, h4 ++ N)
                | _ => create_fix_branch env (repo_path self) analysis fixed
                         (Some cp) (h4 ++ N)
                end) \/
     (exists N0 ev e, N = N0 ++ [ev] /\ raised_by_callback ev = Some e /\
        r = Raise e /\ h' = h4 ++ N)).
Proof.
  intros Hreach Hcp Hrun.
  rewrite (process_logs_after_generation _ _ _ _ _ _ _ _ _ Hreach), Hcp in Hrun.
  unfold mbind, run_bind, notify in Hrun.
  destruct (for_each _ _ _ _) as [r5 h5] eqn:Hloop.
  apply (notify_loop _ _ _ _ _ _ _ (Forall_keys fixed)) in Hloop
    as (N & -> & Hcbs & Hpre & Hres).
  exists N. split; [assumption|]. split; [assumption|].
  destruct r5 as [[]|e].
  - left. destruct Hres as [Htold Hnone]. split; [assumption|]. split; [assumption|].
    rewrite <- Hrun. now destruct fixed.
  - right. destruct Hres as (N0 & ev & -> & Hev). inversion Hrun; subst. eauto 8.
Qed.

End PipelineFacts.

(** ** The retrieval index *)

Section RegexFacts.
Import PyStr Regex Json Py Codebase Terms.

Lemma many_inv p prev s k res :
  many p prev s k = Some res -> exists prev' s', k prev' s' = Some res.
Proof.
  revert prev. induction s as [|c s IH]; intros prev; simpl.
  - eauto.
  - destruct (p c); [|eauto].
    destruct (many p (Some c) s k) eqn:E.
    + intros [= <-]. eauto.
    + eauto.
Qed.

Lemma lit_inv l prev s k res :
  lit l prev s k = Some res -> exists prev' s', k prev' s' = Some res.
Proof.
  revert prev s. induction l as [|a l IH]; intros prev s; simpl.
  - eauto.
  - destruct s as [|c s]; [discriminate|]. destruct (Ascii.eqb a c); [|discriminate]. eauto.
Qed.

Lemma run_groups r : forall prev s caps k res,
  run r prev s caps k = Some res ->
  exists prev' s' caps',
    k prev' s' caps' = Some res /\ length caps' = length caps + ngroups r.
Proof.
  induction r as [l|p|p|p|r IH|r1 IH1 r2 IH2|]; intros prev s caps k res; simpl.
  - intros H. apply lit_inv in H as (prev' & s' & H). exists prev', s', caps. split; [assumption|lia].
  - destruct s as [|c s]; [discriminate|]. destruct (p c); [|discriminate].
    intros H. exists (Some c), s, caps. split; [assumption|lia].
  - intros H. apply many_inv in H as (prev' & s' & H). exists prev', s', caps. split; [assumption|lia].
  - destruct s as [|c s]; [discriminate|]. destruct (p c); [|discriminate].
    intros H. apply many_inv in H as (prev' & s' & H). exists prev', s', caps. split; [assumption|lia].
  - intros H. apply IH in H as (prev' & s' & caps' & H & Hlen).
    eexists prev', s', _. split; [exact H|]. rewrite length_app. simpl. lia.
  - intros H. apply IH1 in H as (prev1 & s1 & caps1 & H & Hlen1).
    apply IH2 in H as (prev2 & s2 & caps2 & H & Hlen2).
    exists prev2, s2, caps2. split; [assumption|lia].
  - destruct (xorb _ _); [|discriminate]. intros H. exists prev, s, caps. split; [assumption|lia].
Qed.

Lemma attempt_groups r prev s rest caps :
  attempt r prev s = Some (rest, caps) -> length caps = ngroups r.
Proof.
  unfold attempt. intros H. apply run_groups in H as (prev' & s' & caps' & H & Hlen).
  inversion H; subst. simpl in Hlen. lia.
Qed.

Lemma scan_groups r s : forall prev skip,
  Forall (fun f => length (groups f) = ngroups r) (scan r prev s skip).
Proof.
  induction s as [|c s IH]; intros prev skip.
  - destruct skip; simpl; [|constructor].
    destruct (attempt r prev "") as [[rest caps]|] eqn:E; [|constructor].
    constructor; [|constructor]. simpl. eapply attempt_groups; eauto.
  - destruct skip; simpl; [|apply IH].
    destruct (attempt r prev (String c s)) as [[rest caps]|] eqn:E; [|apply IH].
    constructor; [|apply IH]. simpl. eapply attempt_groups; eauto.
Qed.

(** Every tuple [findall] returns has as many components as the pattern
    has groups, and one when it has none. *)
Lemma findall_width r s :
  Forall (fun m => length m = Nat.max 1 (ngroups r)) (findall r s).
Proof.
  unfold findall, finditer. apply Forall_map.
  eapply Forall_impl; [apply scan_groups|]. intros f Hf. simpl in *.
  destruct (ngroups r); [reflexivity|]. rewrite Hf. lia.
Qed.

Lemma file_patterns_width s :
  Forall (fun m => 2 <= length m) (all_matches file_patterns s).
Proof.
  unfold all_matches, file_patterns. simpl. rewrite app_nil_r.
  repeat (apply Forall_app; split);
    (eapply Forall_impl; [apply findall_width|]); intros m ->; simpl; lia.
Qed.

End RegexFacts.

Section Selection.
Import PyStr Regex Json Py Codebase Terms.
Variable fs : string -> read_result.
Variable cp : CodebaseProvider.

Lemma excerpt_of_unreadable file_path ln n err :
  fs file_path = ReadErr err ->
  _read_file_excerpt fs file_path ln n = read_error (OSError err).
Proof. unfold _read_file_excerpt, open_readlines. now intros ->. Qed.

Lemma selected_start t acc :
  (forall p, p ∈ acc.2 <-> p ∈ map path acc.1) -> selected fs t acc.1 acc [].
Proof.
  intros H. split; [assumption|]. exists []. rewrite app_nil_r. repeat split. constructor.
Qed.

Lemma selected_skip t before acc cands x :
  selected fs t before acc cands -> x ∈ acc.2 -> selected fs t before acc (cands ++ [x]).
Proof.
  intros (Hseen & new & Hnew & Htags & Hpaths) Hx. split; [assumption|].
  exists new. repeat split; try assumption.
  rewrite fold_left_app. simpl. rewrite <- Hpaths.
  apply Hseen in Hx. now rewrite decide_True.
Qed.

Lemma selected_add t before acc cands e :
  selected fs t before acc cands -> path e ∉ acc.2 -> tag e = t -> honest fs e ->
  selected fs t before (acc.1 ++ [e], {[path e]} ∪ acc.2) (cands ++ [path e]).
Proof.
  intros (Hseen & new & Hnew & Htags & Hpaths) Hx Ht Hh. split.
  - intros p. simpl. rewrite map_app, elem_of_app, elem_of_union, elem_of_singleton.
    simpl. rewrite list_elem_of_singleton, Hseen. tauto.
  - exists (new ++ [e]). simpl. repeat split.
    + rewrite Hnew. now rewrite app_assoc.
    + apply Forall_app. split; [assumption|]. repeat constructor; assumption.
    + rewrite fold_left_app. simpl. rewrite <- Hpaths, map_app. simpl.
      rewrite decide_False; [reflexivity|]. intros Hin. apply Hx. now apply Hseen.
Qed.

Lemma stack_step_spec before acc cands m :
  2 <= length m ->
  selected fs stack_trace before acc cands ->
  match stack_step fs cp acc m with
  | Ret acc' =>
      selected fs stack_trace before acc'
        (cands ++ from_option (fun x => [x]) [] (f ← frame_filename m; file_index cp !! f))
  | Raise e =>
      exists n, frame_line m = Some n /\ int_max_str_digits < String.length n /\
                int n = Raise e
  end.
Proof.
  intros Hm Hsel. destruct m as [|m0 [|m1 m]]; simpl in Hm; try lia.
  unfold stack_step. simpl.
  destruct (contains _ _) eqn:C.
  - destruct (contains_lookup _ _ C) as (p & Hp & ->). simpl. rewrite Hp. simpl.
    destruct (decide (p ∉ acc.2)) as [Hnew|Hold].
    + rewrite bool_decide_eq_true_2 by assumption.
      destruct (isdigit m1) eqn:Hd.
      * unfold int. rewrite Hd.
        destruct (String.length m1 <=? int_max_str_digits) eqn:Hl; simpl.
        -- apply (selected_add _ _ _ _ {| path := p |}); auto.
           intros err Herr; simpl in *; now apply excerpt_of_unreadable.
        -- exists m1. split; [reflexivity|]. split; [now apply Nat.leb_gt|].
           now rewrite Hd, Hl.
      * simpl. apply (selected_add _ _ _ _ {| path := p |}); auto.
        intros err Herr; simpl in *; now apply excerpt_of_unreadable.
    + rewrite bool_decide_eq_false_2 by assumption.
      apply selected_skip; [assumption|].
      destruct (decide (p ∈ acc.2)); [assumption|contradiction].
  - apply contains_false in C. rewrite C. simpl. now rewrite app_nil_r.
Qed.

Lemma stack_phase ms : forall before acc cands,
  Forall (fun m => 2 <= length m) ms ->
  selected fs stack_trace before acc cands ->
  match foldM (stack_step fs cp) ms acc with
  | Ret acc' =>
      selected fs stack_trace before acc'
        (cands ++ omap (fun m => f ← frame_filename m; file_index cp !! f) ms)
  | Raise e =>
      exists n, n ∈ omap frame_line ms /\ int_max_str_digits < String.length n /\
                int n = Raise e
  end.
Proof.
  induction ms as [|m ms IH]; intros before acc cands Hms Hsel.
  - simpl. now rewrite app_nil_r.
  - inversion Hms; subst.
    pose proof (stack_step_spec _ _ _ m ltac:(assumption) Hsel) as Hstep.
    change (foldM (stack_step fs cp) (m :: ms) acc)
      with (stack_step fs cp acc m ≫= foldM (stack_step fs cp) ms).
    destruct (stack_step fs cp acc m) as [acc1|e]; simpl.
    + specialize (IH _ _ _ ltac:(assumption) Hstep).
      destruct (foldM (stack_step fs cp) ms acc1) as [acc2|e].
      * destruct (f ← frame_filename m; file_index cp !! f) as [p|]; simpl in *.
        -- now rewrite <- app_assoc in IH.
        -- now rewrite app_nil_r in IH.
      * destruct IH as (n & Hn & Hlt & Hint). exists n. split; [|now split].
        destruct (frame_line m); [now apply list_elem_of_further|assumption].
    + destruct Hstep as (n & Hn & Hlt & Hint). exists n. split; [|now split].
      rewrite Hn. apply list_elem_of_here.
Qed.

Lemma class_paths_spec paths : forall before acc cands,
  selected fs class_match before acc cands ->
  selected fs class_match before (fold_left (class_path_step fs) paths acc) (cands ++ paths).
Proof.
  induction paths as [|p paths IH]; intros before acc cands Hsel; simpl.
  - now rewrite app_nil_r.
  - replace (cands ++ p :: paths) with ((cands ++ [p]) ++ paths)
      by now rewrite <- app_assoc.
    apply IH. unfold class_path_step.
    destruct (decide (p ∉ acc.2)) as [Hnew|Hold].
    + rewrite bool_decide_eq_true_2 by assumption.
      apply (selected_add _ _ _ _ {| path := p |}); auto.
      intros err Herr; simpl in *; now apply excerpt_of_unreadable.
    + rewrite bool_decide_eq_false_2 by assumption.
      apply selected_skip; [assumption|].
      destruct (decide (p ∈ acc.2)); [assumption|contradiction].
Qed.

Lemma class_phase words : forall before acc cands,
  selected fs class_match before acc cands ->
  exists acc', foldM (word_step fs cp) words acc = Ret acc' /\
    selected fs class_match before acc'
      (cands ++ concat (map (fun w => firstn 2 (default [] (class_index cp !! w))) words)).
Proof.
  induction words as [|w words IH]; intros before acc cands Hsel.
  - simpl. rewrite app_nil_r. eauto.
  - change (foldM (word_step fs cp) (w :: words) acc)
      with (word_step fs cp acc w ≫= foldM (word_step fs cp) words).
    unfold word_step. destruct (contains (class_index cp) w) eqn:C.
    + destruct (contains_lookup _ _ C) as (paths & Hp & ->). simpl. rewrite Hp. simpl.
      rewrite app_assoc. apply IH. now apply class_paths_spec.
    + apply contains_false in C. simpl. rewrite C. simpl. now apply IH.
Qed.

End Selection.

Section Query.
Import PyStr Regex Json Py Codebase Terms.
Variable fs : string -> read_result.
Variable cp : CodebaseProvider.

Lemma first_occurrences_NoDup (l : list string) : forall acc : list string,
  NoDup acc ->
  NoDup (fold_left (fun l x => if decide (x ∈ l) then l else l ++ [x]) l acc).
Proof.
  induction l as [|x l IH]; intros acc Hacc; simpl; [assumption|].
  apply IH. destruct (decide (x ∈ acc)); [assumption|].
  apply NoDup_app. split; [assumption|]. split; [|apply NoDup_singleton].
  intros y Hy ->%list_elem_of_singleton. contradiction.
Qed.

(** What a query comes to: the entries it returns, or the exception of
    [int] on a line number that is too long. *)
Lemma find_relevant_files_outcome stack_trace_text error_message max_files :
  match find_relevant_files fs cp stack_trace_text error_message max_files with
  | Ret files =>
      exists S C,
        files = slice_to max_files (S ++ C) /\
        Forall (fun e => tag e = stack_trace /\ honest fs e) S /\
        Forall (fun e => tag e = class_match /\ honest fs e) C /\
        map path (S ++ C) =
          first_occurrences (stack_candidates cp stack_trace_text
                               ++ class_candidates cp error_message)
  | Raise e =>
      exists n, n ∈ line_numbers stack_trace_text /\
                int_max_str_digits < String.length n /\ int n = Raise e
  end.
Proof.
  unfold find_relevant_files.
  assert (Hstart : selected fs stack_trace [] ([], ∅) []).
  { apply (selected_start fs stack_trace ([], ∅)). intros p. simpl. set_solver. }
  pose proof (stack_phase fs cp (all_matches file_patterns stack_trace_text) [] ([], ∅) []
                (file_patterns_width _) Hstart) as Hsel1.
  destruct (foldM (stack_step fs cp) _ _) as [acc1|e]; simpl; [|exact Hsel1].
  destruct (class_phase fs cp (concat (findall word_pattern error_message))
              acc1.1 acc1 []) as (acc2 & -> & Hsel2).
  { apply selected_start. apply Hsel1. }
  simpl in *.
  destruct Hsel1 as (_ & S & HS & HtS & HpS).
  destruct Hsel2 as (_ & C & HC & HtC & HpC).
  exists S, C. simpl in HS. rewrite HC, HS. split; [reflexivity|].
  split; [assumption|]. split; [assumption|].
  rewrite <- HS, <- HC, HpC, HpS. unfold first_occurrences.
  now rewrite fold_left_app.
Qed.

Lemma find_relevant_files_spec stack_trace_text error_message max_files files :
  find_relevant_files fs cp stack_trace_text error_message max_files = Ret files ->
  exists S C,
    files = slice_to max_files (S ++ C) /\
    Forall (fun e => tag e = stack_trace /\ honest fs e) S /\
    Forall (fun e => tag e = class_match /\ honest fs e) C /\
    map path (S ++ C) =
      first_occurrences (stack_candidates cp stack_trace_text
                           ++ class_candidates cp error_message).
Proof.
  intros Hq.
  pose proof (find_relevant_files_outcome stack_trace_text error_message max_files) as H.
  now rewrite Hq in H.
Qed.





End Query.

Section Index.
Import PyStr Regex Json Py Codebase Terms.
Variable fs : string -> read_result.
Variable extensions : list string.

Lemma index_entry_skip cp e :
  indexed extensions e = false -> index_entry fs extensions cp e = cp.
Proof.
  unfold indexed, excluded, index_entry.
  destruct (existsb _ excluded_dirs); [reflexivity|]. simpl.
  now intros ->.
Qed.

Lemma register_class_keeps path ci names cls p :
  (exists paths, ci !! cls = Some paths /\ p ∈ paths) ->
  exists paths, fold_left (register_class path) names ci !! cls = Some paths /\ p ∈ paths.
Proof.
  revert ci. induction names as [|n names IH]; intros ci H; simpl; [assumption|].
  apply IH. destruct H as (paths & Hl & Hp). unfold register_class.
  destruct (decide (n = cls)) as [->|Hne].
  - rewrite lookup_insert_eq, Hl. simpl. eexists. split; [reflexivity|].
    apply elem_of_app. now left.
  - rewrite lookup_insert_ne by assumption. eauto.
Qed.

Lemma register_class_adds path ci names cls :
  cls ∈ names ->
  exists paths, fold_left (register_class path) names ci !! cls = Some paths /\ path ∈ paths.
Proof.
  revert ci. induction names as [|n names IH]; intros ci H; simpl.
  - inversion H.
  - destruct (decide (cls = n)) as [->|Hne].
    + apply register_class_keeps. unfold register_class. rewrite lookup_insert_eq.
      eexists. split; [reflexivity|]. apply elem_of_app. right. apply list_elem_of_here.
    + apply IH. inversion H; subst; [contradiction|assumption].
Qed.

Lemma index_entry_keeps_class cp e cls p :
  leads_to cp cls p -> leads_to (index_entry fs extensions cp e) cls p.
Proof.
  intros H. unfold index_entry.
  destruct (existsb _ excluded_dirs); [assumption|].
  destruct (is_file e && _); [|assumption].
  destruct (fs _); [|assumption]. unfold leads_to. simpl.
  now apply register_class_keeps.
Qed.

Lemma index_entry_other_name cp e name :
  path_name (parts e) <> name ->
  file_index (index_entry fs extensions cp e) !! name = file_index cp !! name.
Proof.
  intros Hne. unfold index_entry.
  destruct (existsb _ excluded_dirs); [reflexivity|].
  destruct (is_file e && _); [|reflexivity].
  destruct (fs _); simpl; now rewrite lookup_insert_ne.
Qed.

Lemma index_entry_registers cp e content cls :
  indexed extensions e = true ->
  fs (path_str (parts e)) = ReadOk content ->
  cls ∈ class_names content ->
  file_index (index_entry fs extensions cp e) !! path_name (parts e)
    = Some (path_str (parts e)) /\
  leads_to (index_entry fs extensions cp e) cls (path_str (parts e)).
Proof.
  unfold indexed, excluded, index_entry. intros Hidx Hread Hcls.
  destruct (existsb _ excluded_dirs); [discriminate|]. simpl in Hidx. rewrite Hidx, Hread.
  simpl. split; [apply lookup_insert_eq|]. unfold leads_to. simpl.
  now apply register_class_adds.
Qed.

Lemma build_rest post : forall cp name p cls,
  file_index cp !! name = Some p ->
  leads_to cp cls p ->
  Forall (fun e => indexed extensions e = true -> path_name (parts e) <> name) post ->
  file_index (fold_left (index_entry fs extensions) post cp) !! name = Some p /\
  leads_to (fold_left (index_entry fs extensions) post cp) cls p.
Proof.
  induction post as [|e post IH]; intros cp name p cls Hf Hc Hpost; simpl; [auto|].
  inversion Hpost as [|? ? He Hrest]; subst. apply IH; [| |assumption].
  - destruct (indexed extensions e) eqn:E.
    + rewrite index_entry_other_name; auto.
    + now rewrite index_entry_skip.
  - now apply index_entry_keeps_class.
Qed.

(** C9 (amended): after one build of the index over a tree that holds a
    file outside the excluded directories, with an indexed extension,
    readable, whose text declares the class [cls], and that no later
    indexed file of the tree shares its name with: looking up the name of
    the file in [file_index] gives its path, and looking up [cls] in
    [class_index] gives a list of paths that holds its path. *)
Theorem C9_index_round_trip tree before e after content cls :
  tree = before ++ e :: after ->
  indexed extensions e = true ->
  fs (path_str (parts e)) = ReadOk content ->
  cls ∈ class_names content ->
  Forall (fun e' => indexed extensions e' = true ->
                    path_name (parts e') <> path_name (parts e)) after ->
  let cp := _build_index fs extensions tree in
  file_index cp !! path_name (parts e) = Some (path_str (parts e)) /\
  exists paths, class_index cp !! cls = Some paths /\ path_str (parts e) ∈ paths.
Proof.
  intros -> Hidx Hread Hcls Hafter. unfold _build_index.
  rewrite fold_left_app. simpl.
  destruct (index_entry_registers
              (fold_left (index_entry fs extensions) before
                 {| file_index := ∅; class_index := ∅ |}) e content cls Hidx Hread Hcls)
    as [Hf Hc].
  now apply build_rest.
Qed.

End Index.

(** ** Replies *)

#[local] Arguments String.append !s1 s2 : simpl nomatch.

Section StrFacts.
Import PyStr Terms.

Lemma length_append (a b : string) :
  String.length (a +:+ b) = String.length a + String.length b.
Proof. induction a; simpl; auto. Qed.

Lemma append_assoc (a b c : string) : (a +:+ b) +:+ c = a +:+ b +:+ c.
Proof. induction a as [|x a IH]; simpl; [reflexivity|]. now rewrite IH. Qed.

Lemma append_nil_r (a : string) : a +:+ "" = a.
Proof. induction a as [|x a IH]; simpl; [reflexivity|]. now rewrite IH. Qed.

Lemma strip_prefix_length old : forall s rest,
  strip_prefix old s = Some rest ->
  String.length s = String.length old + String.length rest.
Proof.
  induction old as [|a old IH]; intros s rest; simpl.
  - now intros [= ->].
  - destruct s as [|c s]; [discriminate|]. destruct (Ascii.eqb a c); [|discriminate].
    intros H. simpl. f_equal. now apply IH.
Qed.

Lemma strip_prefix_spec old : forall s rest,
  strip_prefix old s = Some rest -> s = old +:+ rest.
Proof.
  induction old as [|a old IH]; intros s rest; simpl.
  - now intros [= ->].
  - destruct s as [|c s]; [discriminate|]. destruct (Ascii.eqb_spec a c); [|discriminate].
    intros H. subst. f_equal. now apply IH.
Qed.

Lemma strip_prefix_app old s : strip_prefix old (old +:+ s) = Some s.
Proof. induction old as [|a old IH]; simpl; [reflexivity|]. now rewrite Ascii.eqb_refl. Qed.

Lemma strip_prefix_more old : forall a a' x,
  strip_prefix old a = Some a' -> strip_prefix old (a +:+ x) = Some (a' +:+ x).
Proof.
  induction old as [|o old IH]; intros a a' x; simpl.
  - now intros [= ->].
  - destruct a as [|c a]; [discriminate|]. simpl. destruct (Ascii.eqb o c); [|discriminate].
    apply IH.
Qed.

(** A character that does not occur in [old] cannot lie inside an
    occurrence of [old]. *)
Lemma strip_prefix_barrier old : forall a c b rest,
  existsb_str (Ascii.eqb c) old = false ->
  strip_prefix old (a +:+ String c b) = Some rest ->
  old = "" \/ exists a', strip_prefix old a = Some a' /\ rest = a' +:+ String c b.
Proof.
  induction old as [|o old IH]; intros a c b rest Hc; simpl.
  - auto.
  - simpl in Hc. apply orb_false_elim in Hc as [Hco Hc]. right.
    destruct a as [|x a]; simpl in *.
    + rewrite Ascii.eqb_sym, Hco in H. discriminate.
    + destruct (Ascii.eqb o x); [|discriminate].
      destruct (IH a c b rest Hc H) as [->|(a' & Ha & ->)].
      * simpl in *. inversion H; subst. exists a. auto.
      * eauto.
Qed.

Lemma remove_fuel_enough old : old <> "" -> forall n m s,
  String.length s <= n -> String.length s <= m ->
  remove_fuel n old s = remove_fuel m old s.
Proof.
  intros Hold. induction n as [|n IH]; intros m s Hn Hm.
  - destruct s; [|simpl in Hn; lia]. destruct m; [reflexivity|]. simpl.
    destruct old; [contradiction|reflexivity].
  - destruct m as [|m].
    + destruct s; [|simpl in Hm; lia]. simpl. destruct old; [contradiction|reflexivity].
    + simpl. destruct (strip_prefix old s) as [rest|] eqn:E.
      * apply strip_prefix_length in E. destruct old; [contradiction|]. simpl in E.
        apply IH; lia.
      * destruct s as [|c s]; [reflexivity|]. simpl in *. f_equal. apply IH; lia.
Qed.

Lemma remove_fuel_S n old s :
  remove_fuel (S n) old s =
  match strip_prefix old s with
  | Some rest => remove_fuel n old rest
  | None =>
      match s with
      | EmptyString => EmptyString
      | String c s' => String c (remove_fuel n old s')
      end
  end.
Proof. reflexivity. Qed.

Lemma py_remove_nil old : py_remove old "" = "".
Proof. reflexivity. Qed.

Lemma py_remove_match old s rest :
  old <> "" -> strip_prefix old s = Some rest -> py_remove old s = py_remove old rest.
Proof.
  intros Hold E. unfold py_remove. pose proof (strip_prefix_length _ _ _ E) as Hlen.
  assert (0 < String.length old) by (destruct old; [contradiction|simpl; lia]).
  destruct (String.length s) as [|n] eqn:Hs; [lia|]. rewrite remove_fuel_S, E.
  apply remove_fuel_enough; [assumption|lia|lia].
Qed.

Lemma py_remove_skip old c s :
  old <> "" -> strip_prefix old (String c s) = None ->
  py_remove old (String c s) = String c (py_remove old s).
Proof.
  intros Hold E. unfold py_remove. simpl String.length. now rewrite remove_fuel_S, E.
Qed.

Lemma py_remove_barrier old c b : old <> "" ->
  existsb_str (Ascii.eqb c) old = false ->
  forall a, py_remove old (a +:+ String c b)
            = py_remove old a +:+ String c (py_remove old b).
Proof.
  intros Hold Hc a. remember (String.length a) as n eqn:Hn. revert a Hn.
  induction n as [n IH] using lt_wf_ind. intros a Hn.
  destruct (strip_prefix old (a +:+ String c b)) as [rest|] eqn:E.
  - destruct (strip_prefix_barrier _ _ _ _ _ Hc E) as [->|(a' & Ha & ->)]; [contradiction|].
    rewrite (py_remove_match _ _ _ Hold E), (py_remove_match _ _ _ Hold Ha).
    pose proof (strip_prefix_length _ _ _ Ha). destruct old; [contradiction|]. simpl in *.
    eapply IH; [|reflexivity]. lia.
  - destruct a as [|x a]; simpl in *.
    + now rewrite py_remove_skip.
    + rewrite py_remove_skip by assumption.
      assert (strip_prefix old (String x a) = None) as Ea.
      { destruct (strip_prefix old (String x a)) eqn:Ea; [|reflexivity].
        apply (strip_prefix_more _ _ _ (String c b)) in Ea. simpl in Ea. congruence. }
      rewrite py_remove_skip by assumption. simpl. f_equal.
      eapply IH; [|reflexivity]. subst n. simpl. lia.
Qed.

(** Text without the first character of [old] holds no occurrence. *)
Lemma py_remove_clear o old w : forall t,
  existsb_str (Ascii.eqb o) w = false ->
  py_remove (String o old) (w +:+ t) = w +:+ py_remove (String o old) t.
Proof.
  induction w as [|c w IH]; intros t Hw; simpl; [reflexivity|].
  simpl in Hw. apply orb_false_elim in Hw as [Hc Hw].
  rewrite py_remove_skip; [|discriminate|simpl; now rewrite Hc].
  f_equal. now apply IH.
Qed.

Lemma rstrip_spaces w : forallb_str is_space w = true -> rstrip w = "".
Proof.
  induction w as [|c w IH]; simpl; [reflexivity|].
  intros [Hc Hw]%andb_prop. now rewrite IH, Hc.
Qed.

Lemma rstrip_tail y c w :
  is_space c = false -> forallb_str is_space w = true ->
  rstrip (y +:+ String c w) = y +:+ String c "".
Proof.
  intros Hc Hw. induction y as [|x y IH]; simpl.
  - now rewrite (rstrip_spaces w Hw), Hc.
  - rewrite IH. destruct y; reflexivity.
Qed.

Lemma forallb_str_app p a b :
  forallb_str p (a +:+ b) = forallb_str p a && forallb_str p b.
Proof. induction a; simpl; [reflexivity|]. now rewrite IHa, andb_assoc. Qed.

End StrFacts.


Section JsonFacts.
Import PyStr Json Terms.

Lemma left_refl s : left_of s s.
Proof. now exists "". Qed.

Lemma left_trans a b c : left_of a b -> left_of b c -> left_of a c.
Proof. intros [p ->] [q ->]. exists (p +:+ q). now rewrite append_assoc. Qed.

Lemma left_cons c s rest : left_of s rest -> left_of (String c s) rest.
Proof. intros [p ->]. now exists (String c p). Qed.

Lemma left_skip_ws s : left_of s (skip_ws s).
Proof.
  induction s as [|c s IH]; simpl; [apply left_refl|].
  destruct (is_ws c); [now apply left_cons|apply left_refl].
Qed.

Lemma skip_ws_blank s :
  skip_ws s = "" -> forallb_str is_space s = true.
Proof.
  induction s as [|c s IH]; simpl; [reflexivity|].
  destruct (is_ws c) eqn:E; [|discriminate]. intros H. rewrite (IH H), andb_true_r.
  unfold is_ws in E.
  repeat (apply orb_prop in E as [E|E]); apply Ascii.eqb_eq in E; now subst.
Qed.

Lemma prepend_inv out r str rest :
  prepend out r = Some (str, rest) -> exists str', r = Some (str', rest).
Proof. destruct r as [[str' rest']|]; simpl; [|discriminate]. intros [= _ <-]. eauto. Qed.

Lemma scanstring_from_left s : forall st pend str rest,
  scanstring_from st pend s = Some (str, rest) -> left_of s (String dquote rest).
Proof.
  induction s as [|c s IH]; intros st pend str rest; simpl; [discriminate|].
  destruct st as [| |k v].
  - destruct (Ascii.eqb_spec c dquote) as [->|_].
    + intros [= _ <-]. apply left_refl.
    + destruct (Ascii.eqb c backslash); [intros H; apply left_cons; eauto|].
      destruct (nat_of_ascii c <? 32); [discriminate|].
      intros (str' & H)%prepend_inv. apply left_cons; eauto.
  - destruct (Ascii.eqb c "u"); [intros H; apply left_cons; eauto|].
    destruct (simple_escape c); [|discriminate].
    intros (str' & H)%prepend_inv. apply left_cons; eauto.
  - destruct (hex_value c); [|discriminate].
    destruct k as [|[|k]];
      try (intros H; apply left_cons; eauto; fail);
      (destruct pend as [hi|];
       [ destruct (is_low_surrogate _);
         [|destruct (is_high_surrogate _)]
       | destruct (is_high_surrogate _) ]);
      try (intros (str' & H)%prepend_inv); try intros H; apply left_cons; eauto.
Qed.

Lemma span_digits_spec s : forall d r,
  span_digits s = (d, r) -> s = d +:+ r /\ (d = "" \/ ends_digit d).
Proof.
  induction s as [|c s IH]; intros d r; simpl.
  - intros [= <- <-]. auto.
  - destruct (is_digit c) eqn:E.
    + destruct (span_digits s) as [d' r'] eqn:Es. intros [= <- <-].
      destruct (IH _ _ eq_refl) as [-> Hd]. split; [reflexivity|]. right.
      destruct Hd as [->|(pre & x & -> & Hx)].
      * exists "", c. auto.
      * exists (String c pre), x. auto.
    + intros [= <- <-]. auto.
Qed.

Lemma ends_digit_app a b : (b = "" \/ ends_digit b) -> ends_digit a -> ends_digit (a +:+ b).
Proof.
  intros [->|(pre & c & -> & Hc)] Ha.
  - now rewrite append_nil_r.
  - exists (a +:+ pre), c. now rewrite append_assoc.
Qed.

Lemma ends_digit_cons c b : ends_digit b -> ends_digit (String c b).
Proof. intros (pre & x & -> & Hx). now exists (String c pre), x. Qed.

Lemma scan_int_spec s i r :
  scan_int s = Some (i, r) -> s = i +:+ r /\ ends_digit i.
Proof.
  unfold scan_int. destruct s as [|c s]; [discriminate|].
  destruct (Ascii.eqb_spec c "0") as [->|_].
  - intros [= <- <-]. split; [reflexivity|]. now exists "", "0"%char.
  - destruct (is_digit c) eqn:E; [|discriminate].
    destruct (span_digits s) as [d r'] eqn:Es. intros [= <- <-].
    destruct (span_digits_spec _ _ _ Es) as [-> Hd]. split; [reflexivity|].
    destruct Hd as [->|Hd]; [now exists "", c|now apply ends_digit_cons].
Qed.

Lemma scan_frac_spec s f r :
  scan_frac s = (f, r) -> s = f +:+ r /\ (f = "" \/ ends_digit f).
Proof.
  unfold scan_frac. destruct s as [|c s]; [intros [= <- <-]; auto|].
  destruct (Ascii.eqb c "."); [|intros [= <- <-]; auto].
  destruct (span_digits s) as [d r'] eqn:Es.
  destruct (span_digits_spec _ _ _ Es) as [-> Hd].
  destruct d as [|x d]; intros [= <- <-]; [auto|].
  split; [reflexivity|]. right. apply ends_digit_cons.
  destruct Hd as [|Hd]; [discriminate|assumption].
Qed.

Lemma scan_exp_spec s e r :
  scan_exp s = (e, r) -> s = e +:+ r /\ (e = "" \/ ends_digit e).
Proof.
  unfold scan_exp. destruct s as [|c s]; [intros [= <- <-]; auto|].
  destruct (_ || _); [|intros [= <- <-]; auto].
  destruct s as [|g s]; [intros [= <- <-]; auto|].
  destruct (_ || _).
  - destruct (span_digits s) as [d r'] eqn:Es.
    destruct (span_digits_spec _ _ _ Es) as [-> Hd].
    destruct d as [|x d]; intros [= <- <-]; [auto|].
    split; [reflexivity|]. right. do 2 apply ends_digit_cons.
    destruct Hd as [|Hd]; [discriminate|assumption].
  - destruct (span_digits (String g s)) as [d r'] eqn:Es.
    destruct (span_digits_spec _ _ _ Es) as [Heq Hd].
    destruct d as [|x d]; intros [= <- <-]; [auto|].
    split; [now rewrite Heq|]. right. apply ends_digit_cons.
    destruct Hd as [|Hd]; [discriminate|assumption].
Qed.

Lemma digit_closes c : is_digit c = true -> closes c = true.
Proof.
  intros H. destruct c as [[] [] [] [] [] [] [] []];
    vm_compute in H |- *; congruence.
Qed.

Lemma ends_digit_closed x r : ends_digit x -> closed_before (x +:+ r) r.
Proof.
  intros (pre & c & -> & Hc). exists pre, c. rewrite append_assoc. simpl.
  split; [reflexivity|now apply digit_closes].
Qed.

Lemma scan_number_closed s v rest :
  scan_number s = Some (v, rest) -> closed_before s rest.
Proof.
  unfold scan_number.
  set (p := match s with String c s' => if Ascii.eqb c "-" then (true, s') else (false, s)
                     | EmptyString => (false, s) end).
  assert (Hp : s = (if p.1 then "-" else "") +:+ p.2).
  { subst p. destruct s as [|c s]; [reflexivity|].
    destruct (Ascii.eqb_spec c "-") as [->|]; reflexivity. }
  destruct p as [neg s0]. simpl in Hp.
  destruct (scan_int s0) as [[i r1]|] eqn:Ei; [|discriminate].
  destruct (scan_frac r1) as [f r2] eqn:Ef. destruct (scan_exp r2) as [e r3] eqn:Ee.
  destruct (scan_int_spec _ _ _ Ei) as [-> Hi].
  destruct (scan_frac_spec _ _ _ Ef) as [-> Hf].
  destruct (scan_exp_spec _ _ _ Ee) as [-> He].
  intros Hv. assert (rest = r3) as -> by (destruct f, e; congruence).
  assert (Hlex : ends_digit ((if neg then "-" else "") +:+ i +:+ f +:+ e)).
  { assert (ends_digit (i +:+ f +:+ e)).
    { rewrite <- append_assoc. apply ends_digit_app; [assumption|].
      now apply ends_digit_app. }
    destruct neg; [now apply ends_digit_cons|assumption]. }
  rewrite Hp. apply ends_digit_closed with (r := r3) in Hlex.
  now rewrite !append_assoc in Hlex.
Qed.

Lemma keyword_closed w v s v' rest pre c :
  w = pre +:+ String c "" -> closes c = true ->
  keyword w v s = Some (v', rest) -> closed_before s rest.
Proof.
  intros -> Hc. unfold keyword. destruct (strip_prefix _ s) as [r|] eqn:E; [|discriminate].
  intros [= _ <-]. apply strip_prefix_spec in E. exists pre, c.
  rewrite E, append_assoc. auto.
Qed.

Lemma left_closed a b rest : left_of a b -> closed_before b rest -> closed_before a rest.
Proof.
  intros [p ->] (q & c & -> & Hc). exists (p +:+ q), c. now rewrite append_assoc.
Qed.

Lemma closed_here c rest : closes c = true -> closed_before (String c rest) rest.
Proof. intros H. now exists "", c. Qed.

Lemma closed_left s rest : closed_before s rest -> left_of s rest.
Proof. intros (p & c & -> & _). exists (p +:+ String c ""). now rewrite append_assoc. Qed.

End JsonFacts.

Section DecoderFacts.
Import PyStr Json Terms.

Lemma decoder_closed fuel :
  (forall s v rest, scan_once fuel s = Some (v, rest) -> closed_before s rest) /\
  (forall s vs rest, parse_items fuel s = Some (vs, rest) -> closed_before s rest) /\
  (forall s kvs rest, parse_members fuel s = Some (kvs, rest) -> closed_before s rest).
Proof.
  induction fuel as [|fuel (IHv & IHi & IHm)]; [repeat split; discriminate|].
  split; [|split].
  - intros s v rest. simpl. destruct s as [|c s]; [discriminate|].
    destruct (Ascii.eqb_spec c dquote) as [->|_].
    { destruct (scanstring s) as [[str r]|] eqn:E; [|discriminate]. intros [= _ ->].
      apply left_closed with (b := String dquote rest);
        [apply left_cons; eapply scanstring_from_left; exact E|now apply closed_here]. }
    destruct (Ascii.eqb_spec c "{") as [->|_].
    { pose proof (left_skip_ws s) as Hws.
      destruct (skip_ws s) as [|c1 r1]; [discriminate|].
      destruct (Ascii.eqb_spec c1 "}") as [->|_].
      - intros [= _ ->]. apply left_closed with (b := String "}" rest);
          [now apply left_cons|now apply closed_here].
      - destruct (Ascii.eqb c1 dquote); [|discriminate].
        destruct (parse_members fuel r1) as [[pairs r]|] eqn:E; [|discriminate].
        intros [= _ ->]. apply IHm in E.
        eapply left_closed; [|exact E]. apply left_cons.
        eapply left_trans; [exact Hws|]. apply left_cons, left_refl. }
    destruct (Ascii.eqb_spec c "[") as [->|_].
    { pose proof (left_skip_ws s) as Hws.
      destruct (skip_ws s) as [|c1 r1]; [discriminate|].
      destruct (Ascii.eqb_spec c1 "]") as [->|_].
      - intros [= _ ->]. apply left_closed with (b := String "]" rest);
          [now apply left_cons|now apply closed_here].
      - destruct (parse_items fuel (String c1 r1)) as [[vs r]|] eqn:E; [|discriminate].
        intros [= _ ->]. apply IHi in E.
        eapply left_closed; [|exact E]. now apply left_cons. }
    destruct (Ascii.eqb c "n"); [now apply (keyword_closed _ _ _ _ _ "nul" "l"%char)|].
    destruct (Ascii.eqb c "t"); [now apply (keyword_closed _ _ _ _ _ "tru" "e"%char)|].
    destruct (Ascii.eqb c "f"); [now apply (keyword_closed _ _ _ _ _ "fals" "e"%char)|].
    unfold orelse.
    destruct (scan_number (String c s)) as [[v' r]|] eqn:E.
    { intros [= _ ->]. now apply scan_number_closed in E. }
    destruct (Ascii.eqb c "N"); [now apply (keyword_closed _ _ _ _ _ "Na" "N"%char)|].
    destruct (Ascii.eqb c "I"); [now apply (keyword_closed _ _ _ _ _ "Infinit" "y"%char)|].
    destruct (Ascii.eqb c "-"); [now apply (keyword_closed _ _ _ _ _ "-Infinit" "y"%char)|].
    discriminate.
  - intros s vs rest. simpl.
    destruct (scan_once fuel s) as [[v r]|] eqn:E; [|discriminate].
    apply IHv, closed_left in E. pose proof (left_skip_ws r) as Hws.
    destruct (skip_ws r) as [|c r']; [discriminate|].
    destruct (Ascii.eqb_spec c "]") as [->|_].
    + intros [= _ ->]. apply left_closed with (b := String "]" rest);
        [eapply left_trans; eauto|now apply closed_here].
    + destruct (Ascii.eqb c ","); [|discriminate].
      destruct (parse_items fuel (skip_ws r')) as [[vs' r'']|] eqn:E2; [|discriminate].
      intros [= _ ->]. apply IHi in E2. eapply left_closed; [|exact E2].
      eapply left_trans; [exact E|]. eapply left_trans; [exact Hws|].
      apply left_cons, left_skip_ws.
  - intros s kvs rest. simpl.
    destruct (scanstring s) as [[key r0]|] eqn:E0; [|discriminate].
    apply scanstring_from_left in E0.
    assert (H0 : left_of s r0) by (eapply left_trans; [exact E0|apply left_cons, left_refl]).
    pose proof (left_skip_ws r0) as Hws0.
    destruct (skip_ws r0) as [|c0 r1]; [discriminate|].
    destruct (Ascii.eqb c0 ":"); [|discriminate].
    destruct (scan_once fuel (skip_ws r1)) as [[v r2]|] eqn:E; [|discriminate].
    apply IHv, closed_left in E.
    assert (H2 : left_of s r2).
    { eapply left_trans; [exact H0|]. eapply left_trans; [exact Hws0|].
      apply left_cons. eapply left_trans; [apply left_skip_ws|exact E]. }
    pose proof (left_skip_ws r2) as Hws2.
    destruct (skip_ws r2) as [|c r3]; [discriminate|].
    destruct (Ascii.eqb_spec c "}") as [->|_].
    + intros [= _ ->]. apply left_closed with (b := String "}" rest);
        [eapply left_trans; eauto|now apply closed_here].
    + destruct (Ascii.eqb c ","); [|discriminate].
      pose proof (left_skip_ws r3) as Hws3.
      destruct (skip_ws r3) as [|q r4]; [discriminate|].
      destruct (Ascii.eqb q dquote); [|discriminate].
      destruct (parse_members fuel r4) as [[kvs' r']|] eqn:E4; [|discriminate].
      intros [= _ ->]. apply IHm in E4. eapply left_closed; [|exact E4].
      eapply left_trans; [exact H2|]. eapply left_trans; [exact Hws2|].
      apply left_cons. eapply left_trans; [exact Hws3|]. apply left_cons, left_refl.
Qed.

(** A text [json.loads] accepts ends, blanks apart, with a character
    that can end a JSON text. *)
Lemma json_loads_closed s v :
  json_loads s = Some v ->
  exists body c blank,
    s = body +:+ String c blank /\ closes c = true /\
    forallb_str is_space blank = true.
Proof.
  unfold json_loads.
  destruct (scan_once _ _) as [[v' rest]|] eqn:E; [|discriminate].
  destruct (skip_ws rest) eqn:Hrest; [|discriminate]. intros _.
  apply decoder_closed in E.
  destruct (left_closed _ _ _ (left_skip_ws s) E) as (body & c & -> & Hc).
  exists body, c, rest. repeat split; [assumption|now apply skip_ws_blank].
Qed.

End DecoderFacts.


Section FenceFacts.
Import PyStr Json Py Pipeline Terms.

Lemma closes_not_in_mark c p :
  closes c = true -> p ∈ fence_marks -> existsb_str (Ascii.eqb c) p = false.
Proof.
  intros Hc Hp. unfold fence_marks in Hp.
  repeat (apply elem_of_cons in Hp as [->|Hp]); [| | | |inversion Hp];
    destruct c as [[] [] [] [] [] [] [] []]; vm_compute in Hc |- *; congruence.
Qed.

Lemma closes_not_space c : closes c = true -> is_space c = false.
Proof. unfold closes. intros [H _]%andb_prop. now apply negb_true_iff. Qed.

Lemma blank_no_backquote w :
  forallb_str is_space w = true -> existsb_str (Ascii.eqb "`") w = false.
Proof.
  induction w as [|c w IH]; [reflexivity|].
  change (forallb_str is_space (String c w)) with (is_space c && forallb_str is_space w).
  change (existsb_str (Ascii.eqb "`") (String c w))
    with (Ascii.eqb "`" c || existsb_str (Ascii.eqb "`") w).
  intros [Hc Hw]%andb_prop. rewrite (IH Hw), orb_false_r.
  apply Ascii.eqb_neq. intros <-. discriminate.
Qed.

Lemma mark_shape p : p ∈ fence_marks -> exists old, p = String "`" old.
Proof.
  unfold fence_marks. intros Hp.
  repeat (apply elem_of_cons in Hp as [->|Hp]); [| | | |inversion Hp]; eauto.
Qed.

(** One removal passes over the end of a JSON text and reaches what
    follows it unchanged. *)
Lemma remove_past_end p x c blank t :
  p ∈ fence_marks -> closes c = true -> forallb_str is_space blank = true ->
  py_remove p (x +:+ String c (blank +:+ t))
  = py_remove p x +:+ String c (blank +:+ py_remove p t).
Proof.
  intros Hp Hc Hb. destruct (mark_shape p Hp) as [old Hold].
  rewrite py_remove_barrier;
    [|subst; discriminate|now apply closes_not_in_mark].
  f_equal. f_equal. subst p. apply py_remove_clear. now apply blank_no_backquote.
Qed.

Lemma removals_past_end x c blank t :
  closes c = true -> forallb_str is_space blank = true ->
  removals (x +:+ String c (blank +:+ t))
  = removals x +:+ String c (blank +:+ removals t).
Proof.
  intros Hc Hb. unfold removals.
  rewrite !remove_past_end by (assumption || (unfold fence_marks; set_solver)).
  reflexivity.
Qed.

Lemma strip_past_end x c blank t :
  closes c = true -> forallb_str is_space blank = true ->
  forallb_str is_space t = true ->
  strip (x +:+ String c (blank +:+ t)) = strip (x +:+ String c "").
Proof.
  intros Hc Hb Ht. unfold strip.
  rewrite !rstrip_tail; [reflexivity| | | |];
    try (now apply closes_not_space); [reflexivity|].
  now rewrite forallb_str_app, Hb, Ht.
Qed.

Lemma removals_open_json s : removals (("```json" +:+ nl) +:+ s) = removals s.
Proof.
  unfold removals. f_equal. f_equal. f_equal.
  apply py_remove_match; [discriminate|apply strip_prefix_app].
Qed.

Lemma removals_open_plain s : removals (("```" +:+ nl) +:+ s) = removals s.
Proof.
  unfold removals. f_equal.
  assert (H1 : forall p, p = "```json" +:+ nl \/ p = "```json" ->
             forall u, py_remove p (("```" +:+ nl) +:+ u) = ("```" +:+ nl) +:+ py_remove p u).
  { intros p [-> | ->] u;
      repeat (rewrite py_remove_skip; [|discriminate|reflexivity]; f_equal);
      reflexivity. }
  rewrite (H1 _ (or_introl eq_refl)), (H1 _ (or_intror eq_refl)).
  apply py_remove_match; [discriminate|apply strip_prefix_app].
Qed.

Theorem clean_response_fence lang J v :
  json_loads J = Some v ->
  lang = "json" \/ lang = "" ->
  clean_response (fence lang J) = clean_response J.
Proof.
  intros HJ Hlang.
  destruct (json_loads_closed J v HJ) as (body & c & blank & -> & Hc & Hb).
  assert (Hopen : removals (fence lang (body +:+ String c blank))
                  = removals (body +:+ String c (blank +:+ nl +:+ "```"))).
  { unfold fence. destruct Hlang as [-> | ->].
    - change ("```" +:+ "json" +:+ nl +:+ (body +:+ String c blank) +:+ nl +:+ "```")
        with (("```json" +:+ nl) +:+ ((body +:+ String c blank) +:+ nl +:+ "```")).
      rewrite removals_open_json, append_assoc. reflexivity.
    - change ("```" +:+ "" +:+ nl +:+ (body +:+ String c blank) +:+ nl +:+ "```")
        with (("```" +:+ nl) +:+ ((body +:+ String c blank) +:+ nl +:+ "```")).
      rewrite removals_open_plain, append_assoc. reflexivity. }
  unfold clean_response. fold (removals (fence lang (body +:+ String c blank))).
  fold (removals (body +:+ String c blank)).
  rewrite Hopen, removals_past_end by assumption.
  replace (body +:+ String c blank) with (body +:+ String c (blank +:+ ""))
    by now rewrite append_nil_r.
  rewrite removals_past_end by assumption.
  change (removals (nl +:+ "```")) with nl. change (removals "") with "".
  rewrite !strip_past_end by (assumption || reflexivity). reflexivity.
Qed.

(** C4 (amended): for a valid JSON text [J], the reply made of [J] between
    a fence line (with the language json or with none) and a closing
    fence is decoded by the agents as [J] itself is; and a reply that is
    a JSON array of one element which is not itself an array is decoded
    as a reply that is that element. *)
Theorem C4_reply_decoding (lang J r r' : string) (v e : JSON) :
  json_loads J = Some v ->
  lang = "json" \/ lang = "" ->
  decode_reply (fence lang J) = decode_reply J /\
  (json_loads (clean_response r) = Some (JArr [e]) ->
   is_list e = false ->
   json_loads (clean_response r') = Some e ->
   decode_reply r = decode_reply r').
Proof.
  intros HJ Hlang. split.
  - unfold decode_reply. now rewrite (clean_response_fence lang J v HJ Hlang).
  - intros Hr He Hr'. unfold decode_reply. rewrite Hr, Hr'.
    destruct e; try reflexivity. discriminate He.
Qed.

End FenceFacts.

(** * The statements on the scenario *)

Section OnTheScenario.
Import PyStr Json Py Codebase Pipeline Terms Scenario.

(** ** The git agent *)

Lemma C1_failure_is_reported_witness :
  exists g,
    fst (create_fix_branch env_commit_fails "repo" analysis fixed_files (Some provider) [])
    = Ret g /\ GitOperation.success g = false.
Proof.
  set (X := create_fix_branch env_commit_fails "repo" analysis fixed_files (Some provider) []).
  destruct (C1_failure_is_reported env_commit_fails "repo" analysis fixed_files
              (Some provider) [] (fst X) (snd X) "Null Reference") as [H _].
  - reflexivity.
  - vm_compute. reflexivity.
  - apply H. vm_compute. reflexivity.
Defined.

(** C1, as stated, fails: when a fixed file cannot be written,
    [create_fix_branch] raises the error of the file system and returns
    no result at all. *)
Lemma C1_write_failure_raises :
  let X := create_fix_branch env_disk_full "repo" analysis fixed_files (Some provider) [] in
  fst X = Raise (OSError "[Errno 28] No space left on device") /\
  existsb (write_failed_with "[Errno 28] No space left on device") (snd X) = true /\
  forall g, fst X <> Ret g.
Proof.
  vm_compute. split; [reflexivity|]. split; [reflexivity|]. intros g. discriminate.
Qed.

Lemma C10_branch_kept_witness :
  let X := create_fix_branch env_commit_fails "repo" analysis fixed_files (Some provider) [] in
  fst X = Ret (GitOperation.mk branch "" [] false) /\
  existsb removes_branch (snd X) = false /\
  current (branches_after main_only (snd X)) = branch.
Proof.
  intros X.
  destruct (C10_branch_kept env_commit_fails "repo" analysis fixed_files
              (Some provider) [] (fst X) (snd X) "Null Reference")
    as (H1 & _ & H3 & H4).
  - reflexivity.
  - vm_compute. reflexivity.
  - vm_compute. reflexivity.
  - split; [exact H1|]. split; [exact H3|]. exact (proj1 (H4 main_only)).
Defined.

(** C10, as stated, fails: [git status] is a step after the branch was
    created, its exit status is not looked at, and when it fails with
    nothing on its output the branch is deleted and the result names no
    branch. *)
Lemma C10_status_failure_deletes_branch :
  let X := create_fix_branch env_status_fails "repo" analysis fixed_files (Some provider) [] in
  fst X = Ret (GitOperation.mk "" "No changes to commit" [] false) /\
  existsb (fun e => match e with
                    | Subprocess StatusPorcelain (Exited rc _ _) => negb (rc =? 0)%Z
                    | _ => false
                    end) (snd X) = true /\
  existsb removes_branch (snd X) = true /\
  current (branches_after main_only (snd X)) = "main" /\
  existing (branches_after main_only (snd X)) = ["main"].
Proof. vm_compute. repeat split; reflexivity. Qed.

(** ** The pipeline *)

Lemma C3_no_files_to_change_witness :
  exists h3,
    process_logs env_idle orchestrator logs None "" None [] = (Ret no_result, h3) /\
    existsb git_event h3 = false.
Proof.
  edestruct (C3_no_files_to_change env_idle orchestrator logs None "" None [])
    as (H1 & _ & E & HE & _ & _).
  - discriminate.
  - vm_compute. reflexivity.
  - vm_compute. reflexivity.
  - vm_compute. reflexivity.
  - vm_compute. reflexivity.
  - eexists. split; [exact H1|]. vm_compute. reflexivity.
Defined.

Lemma C5_observer_told_witness :
  exists N,
    forallb is_callback N = true /\
    told N `prefix_of` notified files provider fixed_files.
Proof.
  edestruct (C5_observer_told env_ok orchestrator provider logs None "" quiet_observer []
               analysis fixed_files) as (N & H1 & H2 & _).
  - split; [discriminate|]. eexists _, _, _, _, _, _.
    repeat split; vm_compute; reflexivity.
  - reflexivity.
  - vm_compute. reflexivity.
  - exists N. split; assumption.
Defined.

(** C5, as stated, fails twice: nothing guards the call of the observer,
    so what it raises ends the run before the git agent starts; and a
    fixed file whose name the index does not know is not reported. *)
Lemma C5_observer_failure_aborts :
  (let X := process_logs env_ok orchestrator logs None "" (Some failing_observer) [] in
   fst X = Raise (CallbackError "the review was closed") /\
   existsb git_event (snd X) = false) /\
  (let Y := process_logs env_notes orchestrator logs (Some given_contents) ""
              (Some quiet_observer) [] in
   (exists g, fst Y = Ret g /\ GitOperation.files_changed g = ["notes/New.java"]) /\
   existsb is_callback (snd Y) = false).
Proof.
  split.
  - vm_compute. split; reflexivity.
  - vm_compute. split; [eexists; split; reflexivity|reflexivity].
Qed.

(** ** The retrieval index *)






Lemma C9_index_round_trip_witness :
  file_index provider !! "Foo.java" = Some foo_path /\
  exists paths, class_index provider !! "Foo" = Some paths /\ foo_path ∈ paths.
Proof.
  apply (C9_index_round_trip files file_extensions tree
           [ {| parts := ["repo"; "src"]; is_file := false |} ]
           (source_file "Foo.java")
           [source_file "Billing.java"; source_file "Locked.java"] foo_text "Foo").
  - reflexivity.
  - vm_compute. reflexivity.
  - vm_compute. reflexivity.
  - vm_compute. constructor.
  - repeat (apply List.Forall_cons; [intros _; vm_compute; discriminate|]).
    apply List.Forall_nil.
Defined.

(** C9, as stated, fails for a file under an excluded directory: the
    build passes over it, and neither lookup finds it. *)
Lemma C9_excluded_directory :
  let cp := _build_index files file_extensions build_tree in
  files generated_path = ReadOk foo_text /\
  class_names foo_text = ["Foo"; "Foo"] /\
  file_index cp !! "Foo.java" = None /\
  class_index cp !! "Foo" = None.
Proof. vm_compute. repeat split; reflexivity. Qed.

(** ** Replies *)

Lemma C4_reply_decoding_witness :
  decode_reply (fence "json" array_reply) = decode_reply array_reply /\
  decode_reply array_reply = decode_reply object_reply.
Proof.
  destruct (C4_reply_decoding "json" array_reply array_reply object_reply
              (JArr [JObj [("error_type", JStr "NullReference")]])
              (JObj [("error_type", JStr "NullReference")]))
    as [H1 H2]; [vm_compute; reflexivity | left; reflexivity |].
  split; [exact H1|].
  apply H2; vm_compute; reflexivity.
Defined.

(** C4, as stated, fails for an array inside an array: the first element
    is taken once, so the reply is refused, while its element returned
    directly is accepted. *)
Lemma C4_nested_array_refused :
  json_loads (clean_response nested_reply)
    = Some (JArr [JArr [JObj [("error_type", JStr "NullReference")]]]) /\
  json_loads (clean_response array_reply)
    = Some (JArr [JObj [("error_type", JStr "NullReference")]]) /\
  decode_reply nested_reply = Raise (ValueError "API yanıtı sözlük formatında değil") /\
  decode_reply array_reply = Ret [("error_type", JStr "NullReference")].
Proof. vm_compute. repeat split; reflexivity. Qed.

End OnTheScenario.

(** * Further facts

    ** What the index holds *)

Section IndexSound.
Import PyStr Regex Json Py Codebase Terms IndexTerms.
Variable fs : string -> read_result.
Variable extensions : list string.

Lemma index_entry_file_from cp e name p :
  file_index (index_entry fs extensions cp e) !! name = Some p ->
  file_index cp !! name = Some p \/
  (indexed extensions e = true /\ path_name (parts e) = name /\ path_str (parts e) = p).
Proof.
  destruct (indexed extensions e) eqn:Hidx.
  - unfold indexed, excluded in Hidx. unfold index_entry.
    apply andb_prop in Hidx as [[Hex%negb_true_iff Hfile]%andb_prop Hext].
    rewrite Hex, Hfile, Hext. simpl.
    assert (Hfi : forall ci,
      file_index {| file_index := <[path_name (parts e) := path_str (parts e)]> (file_index cp);
                    class_index := ci |} !! name = Some p ->
      file_index cp !! name = Some p \/
      (true = true /\ path_name (parts e) = name /\ path_str (parts e) = p)).
    { intros ci. simpl. destruct (decide (path_name (parts e) = name)) as [<-|Hne].
      - rewrite lookup_insert_eq. intros [= <-]. right. auto.
      - rewrite lookup_insert_ne by assumption. auto. }
    destruct (fs _); apply Hfi.
  - rewrite index_entry_skip by assumption. auto.
Qed.

Lemma build_files_from tree name p : forall cp,
  file_index (fold_left (index_entry fs extensions) tree cp) !! name = Some p ->
  file_index cp !! name = Some p \/ registered extensions tree name p.
Proof.
  induction tree as [|e tree IH]; intros cp; simpl; [auto|].
  intros H. apply IH in H as [H|(e' & He' & H)].
  - apply index_entry_file_from in H as [H|H]; [auto|].
    right. exists e. split; [apply list_elem_of_here|assumption].
  - right. exists e'. split; [now apply list_elem_of_further|assumption].
Qed.

(** Whatever [file_index] holds after a build is a file of the tree,
    outside the excluded directories and with a listed extension, under
    its own name and with its own path. *)
Theorem file_index_sound tree name p :
  file_index (_build_index fs extensions tree) !! name = Some p ->
  registered extensions tree name p.
Proof.
  unfold _build_index. intros H. apply build_files_from in H as [H|H]; [|assumption].
  simpl in H. now rewrite lookup_empty in H.
Qed.

Lemma register_classes_from path names cls : forall ci paths p,
  fold_left (register_class path) names ci !! cls = Some paths ->
  p ∈ paths ->
  (exists old, ci !! cls = Some old /\ p ∈ old) \/ (p = path /\ cls ∈ names).
Proof.
  induction names as [|n names IH]; intros ci paths p; simpl.
  - intros H Hp. left. eauto.
  - intros H Hp. destruct (IH _ _ _ H Hp) as [(old & Hold & Hin)|[-> Hcls]].
    + unfold register_class in Hold.
      destruct (decide (n = cls)) as [->|Hne].
      * rewrite lookup_insert_eq in Hold. injection Hold as <-.
        apply elem_of_app in Hin as [Hin|Hin%list_elem_of_singleton].
        -- left. destruct (ci !! cls) as [old|]; simpl in Hin; [eauto|].
           now apply elem_of_nil in Hin.
        -- right. split; [assumption|apply list_elem_of_here].
      * rewrite lookup_insert_ne in Hold by assumption. left. eauto.
    + right. split; [reflexivity|now apply list_elem_of_further].
Qed.

Lemma index_entry_class_from cp e cls paths p :
  class_index (index_entry fs extensions cp e) !! cls = Some paths ->
  p ∈ paths ->
  (exists old, class_index cp !! cls = Some old /\ p ∈ old) \/
  declares fs extensions [e] cls p.
Proof.
  destruct (indexed extensions e) eqn:Hidx.
  - pose proof Hidx as Hidx'.
    unfold indexed, excluded in Hidx. unfold index_entry.
    apply andb_prop in Hidx as [[Hex%negb_true_iff Hfile]%andb_prop Hext].
    rewrite Hex, Hfile, Hext. simpl.
    destruct (fs (path_str (parts e))) as [content|err] eqn:Hread; simpl.
    + intros H Hp. destruct (register_classes_from _ _ _ _ _ _ H Hp) as [?|[-> Hcls]]; [auto|].
      right. exists e, content. split; [apply list_elem_of_here|]. auto.
    + intros H Hp. left. eauto.
  - rewrite index_entry_skip by assumption. intros H Hp. left. eauto.
Qed.

Lemma build_classes_from tree cls p : forall cp paths,
  class_index (fold_left (index_entry fs extensions) tree cp) !! cls = Some paths ->
  p ∈ paths ->
  (exists old, class_index cp !! cls = Some old /\ p ∈ old) \/
  declares fs extensions tree cls p.
Proof.
  induction tree as [|e tree IH]; intros cp paths; simpl.
  - intros H Hp. left. eauto.
  - intros H Hp. destruct (IH _ _ H Hp) as [(old & Hold & Hin)|(e' & c & He' & H')].
    + destruct (index_entry_class_from _ _ _ _ _ Hold Hin) as [?|(e' & c & He' & H')]; [auto|].
      right. exists e', c. apply list_elem_of_singleton in He' as ->.
      split; [apply list_elem_of_here|assumption].
    + right. exists e', c. split; [now apply list_elem_of_further|assumption].
Qed.

(** Whatever path [class_index] lists under a class after a build is a
    registered file of the tree that could be read and whose text
    declares the class. *)
Theorem class_index_sound tree cls paths p :
  class_index (_build_index fs extensions tree) !! cls = Some paths ->
  p ∈ paths ->
  declares fs extensions tree cls p.
Proof.
  unfold _build_index. intros H Hp.
  destruct (build_classes_from _ _ _ _ _ H Hp) as [(old & Hold & _)|?]; [|assumption].
  simpl in Hold. now rewrite lookup_empty in Hold.
Qed.

End IndexSound.

(** ** What a query returns *)

Section QueryFromIndex.
Import PyStr Regex Json Py Codebase Terms IndexTerms.
Variable fs : string -> read_result.

Lemma first_occurrences_from (l : list string) x : forall acc : list string,
  x ∈ fold_left (fun l x => if decide (x ∈ l) then l else l ++ [x]) l acc ->
  x ∈ acc \/ x ∈ l.
Proof.
  induction l as [|y l IH]; intros acc; simpl; [auto|].
  intros H. apply IH in H as [H|H].
  - destruct (decide (y ∈ acc)); [auto|].
    apply elem_of_app in H as [H|H%list_elem_of_singleton]; [auto|].
    right. subst. apply list_elem_of_here.
  - right. now apply list_elem_of_further.
Qed.

Lemma stack_candidates_known cp text p :
  p ∈ stack_candidates cp text -> exists name, file_index cp !! name = Some p.
Proof.
  unfold stack_candidates. intros (m & _ & Hm)%list_elem_of_omap.
  destruct (frame_filename m) as [f|]; simpl in Hm; [eauto|discriminate].
Qed.

Lemma class_candidates_known cp text p :
  p ∈ class_candidates cp text ->
  exists cls paths, class_index cp !! cls = Some paths /\ p ∈ paths.
Proof.
  unfold class_candidates. rewrite list_elem_of_In, in_concat.
  intros (l & Hl & Hp). apply in_map_iff in Hl as (w & <- & _).
  apply list_elem_of_In in Hp.
  destruct (class_index cp !! w) as [paths|] eqn:Hw; simpl in Hp.
  - exists w, paths. split; [assumption|]. now apply (subseteq_take 2).
  - now apply elem_of_nil in Hp.
Qed.

Lemma query_paths_known cp stack_trace_text error_message max_files files e :
  find_relevant_files fs cp stack_trace_text error_message max_files = Ret files ->
  e ∈ files ->
  known cp (path e).
Proof.
  intros Hq He.
  destruct (find_relevant_files_spec fs cp stack_trace_text error_message max_files
              files Hq) as (S & C & -> & _ & _ & Hpaths).
  assert (He' : e ∈ S ++ C).
  { unfold slice_to in He. destruct (0 <=? max_files)%Z;
      now apply (subseteq_take _ (S ++ C)) in He. }
  assert (Hp : path e ∈ map path (S ++ C)).
  { apply list_elem_of_fmap. eauto. }
  rewrite Hpaths in Hp. unfold first_occurrences in Hp.
  apply first_occurrences_from in Hp as [Hp|Hp]; [now apply elem_of_nil in Hp|].
  apply elem_of_app in Hp as [Hp|Hp].
  - left. now apply stack_candidates_known in Hp.
  - right. now apply class_candidates_known in Hp.
Qed.

(** Every entry a query returns has a path the index holds, under a file
    name or under a class: the query chooses its files from the index
    and from nowhere else. *)
Theorem query_from_index cp stack_trace_text error_message max_files files e :
  find_relevant_files fs cp stack_trace_text error_message max_files = Ret files ->
  e ∈ files ->
  known cp (path e).
Proof. apply query_paths_known. Qed.

(** A query on a freshly built index returns only files of the tree that
    the build registers: files outside the excluded directories, with a
    listed extension. *)
Theorem query_after_build extensions tree stack_trace_text error_message max_files files e :
  find_relevant_files fs (_build_index fs extensions tree)
    stack_trace_text error_message max_files = Ret files ->
  e ∈ files ->
  exists entry, entry ∈ tree /\ indexed extensions entry = true /\
                path_str (parts entry) = path e.
Proof.
  intros Hq He. unfold _build_index in Hq.
  destruct (query_paths_known _ _ _ _ _ _ Hq He) as [(name & Hn)|(cls & paths & Hc & Hp)].
  - apply build_files_from in Hn as [Hn|(entry & ? & ? & _ & ?)]; [|eauto].
    simpl in Hn. now rewrite lookup_empty in Hn.
  - destruct (build_classes_from _ _ _ _ _ _ _ Hc Hp)
      as [(old & Hold & _)|(entry & c & ? & ? & ? & _)]; [|eauto].
    simpl in Hold. now rewrite lookup_empty in Hold.
Qed.

End QueryFromIndex.

(** ** The excerpt of a file *)

Section Excerpt.
Import PyStr Json Py Codebase.
Variable fs : string -> read_result.

Lemma window_split {A} (L : list A) a k b :
  a <= k -> k < b -> b <= length L ->
  exists x,
    L = firstn a L ++ firstn (k - a) (skipn a L) ++ x :: firstn (b - k - 1) (skipn (S k) L)
          ++ skipn b L /\
    firstn (b - a) (skipn a L)
      = firstn (k - a) (skipn a L) ++ x :: firstn (b - k - 1) (skipn (S k) L).
Proof.
  intros Hak Hkb Hb.
  destruct (lookup_lt_is_Some_2 L k ltac:(lia)) as [x Hx].
  assert (H1 : skipn a L = firstn (k - a) (skipn a L) ++ x :: firstn (b - k - 1) (skipn (S k) L)
                            ++ skipn b L).
  { rewrite <- (take_drop (k - a) (skipn a L)) at 1. f_equal.
    rewrite drop_drop. replace (a + (k - a)) with k by lia.
    rewrite (drop_S L x k Hx). f_equal.
    rewrite <- (take_drop (b - k - 1) (skipn (S k) L)) at 1. f_equal.
    rewrite drop_drop. f_equal. lia. }
  exists x. split.
  - rewrite <- H1. symmetry. apply take_drop.
  - rewrite H1 at 1.
    change (firstn (k - a) (skipn a L) ++ x :: firstn (b - k - 1) (skipn (S k) L) ++ skipn b L)
      with (firstn (k - a) (skipn a L) ++ (x :: firstn (b - k - 1) (skipn (S k) L)) ++ skipn b L).
    rewrite app_assoc. apply take_app_length'.
    rewrite length_app. simpl. rewrite !length_take, !length_drop. lia.
Qed.

(** For a file that can be read and a line number within it, the
    excerpt is the numbered line with the lines before and after it, at
    most [context_lines] on each side and fewer only where the file ends,
    under a heading that gives the numbers of the first and the last of
    them. *)
Theorem excerpt_window file_path text line_number context_lines :
  fs file_path = ReadOk text ->
  0 < line_number <= length (readlines text) ->
  exists pre before x after post,
    readlines text = pre ++ before ++ x :: after ++ post /\
    length (pre ++ before) = line_number - 1 /\
    length before = Nat.min context_lines (line_number - 1) /\
    length after = Nat.min context_lines (length (readlines text) - line_number) /\
    _read_file_excerpt fs file_path (Some line_number) context_lines
      = "... (lines " +:+ of_nat (length pre + 1) +:+ "-"
        +:+ of_nat (line_number + length after) +:+ ") ..." +:+ nl
        +:+ concat_str (before ++ x :: after).
Proof.
  intros Hread [Hpos Hlen]. set (L := readlines text) in *.
  set (a := line_number - context_lines - 1).
  set (b := Nat.min (length L) (line_number + context_lines)).
  destruct (window_split L a (line_number - 1) b) as (x & HL & Htake);
    [subst a; lia | subst b; lia | subst b; lia |].
  exists (firstn a L), (firstn (line_number - 1 - a) (skipn a L)), x,
         (firstn (b - (line_number - 1) - 1) (skipn (S (line_number - 1)) L)), (skipn b L).
  split; [exact HL|].
  rewrite length_app, !length_take, !length_drop.
  split; [subst a; lia|]. split; [subst a; lia|]. split; [subst a b; lia|].
  unfold _read_file_excerpt, open_readlines. rewrite Hread. simpl.
  destruct line_number as [|n]; [lia|].
  fold L. destruct (Nat.leb_spec (S n) (length L)) as [_|]; [|lia].
  unfold slice. fold a b. rewrite Htake.
  replace (Nat.min a (length L) + 1) with (a + 1) by (subst a; lia).
  replace (S n + Nat.min (b - (S n - 1) - 1) (length L - S (S n - 1))) with b
    by (subst a b; lia).
  reflexivity.
Qed.

End Excerpt.

(** ** The pipeline without an index *)

Section WithoutIndex.
Import PyStr Json Py Codebase Pipeline Terms.
Variable env : Env.

Lemma locate_error_unbound analysis h :
  locate_error env analysis None h
  = (Raise (UnboundLocalError "prompt"), h ++ [Invoked ErrorLocator]).
Proof. reflexivity. Qed.

(** An orchestrator built without retrieval never returns a result for a
    batch that is not empty: whatever the model replies, the run ends in
    an exception. When the analysis goes through and the affected files
    of its report can be joined for the line that prints them, the
    exception is the unbound prompt of the locator, raised as soon as
    the locator starts and before any further completion is asked for;
    when joining them raises, that exception ends the run and the
    locator never starts. *)
Theorem process_logs_needs_index self logs fc ctx cb h r h' :
  codebase_provider self = None ->
  logs <> [] ->
  process_logs env self logs fc ctx cb h = (r, h') ->
  (exists e, r = Raise e) /\
  forall analysis h1,
    analyze_logs env logs h = (Ret analysis, h1) ->
    match join_or env (LogAnalysis.affected_files analysis) "Bilinmiyor" with
    | Ret _ => r = Raise (UnboundLocalError "prompt") /\ h' = h1 ++ [Invoked ErrorLocator]
    | Raise e => r = Raise e /\ h' = h1
    end.
Proof.
  intros Hcp Hlogs. destruct logs as [|l logs]; [congruence|]. clear Hlogs.
  unfold process_logs. rewrite Hcp. intros H.
  apply bind_inv in H as [(analysis & h1 & Ha & H)|(e & Ha & ->)].
  - unfold mbind at 1, run_bind, lift in H.
    destruct (join_or env _ _) as [listed|e] eqn:Hj.
    + rewrite (bind_raise _ _ _ _ _ (locate_error_unbound analysis h1)) in H.
      injection H as <- <-. split; [eauto|].
      intros analysis' h1' Ha'. rewrite Ha in Ha'.
      injection Ha' as <- <-. rewrite Hj. auto.
    + injection H as <- <-. split; [eauto|].
      intros analysis' h1' Ha'. rewrite Ha in Ha'.
      injection Ha' as <- <-. rewrite Hj. auto.
  - split; [eauto|]. intros analysis h1 Ha'. congruence.
Qed.

End WithoutIndex.

(** ** A run of the git agent that succeeds *)

Section GitSuccess.
Import PyStr Json Py Codebase Pipeline Terms GitTerms.
Variable env : Env.

Ltac step_run :=
  unfold mbind, run_bind, mret, run_ret, emit, call_claude, lift, raise, so_far in *.

Lemma write_fixed_exact repo cp u item h h' :
  write_fixed env repo cp u item h = (Ret tt, h') ->
  h' = h ++ writes_of repo cp [item].
Proof.
  destruct item as [file_path content]. unfold write_fixed, writes_of, target. simpl.
  set (o := match cp with Some _ => _ | None => _ end).
  assert (Ho : o = Ret match cp with
                       | Some cp => file_index cp !! basename file_path
                       | None => None
                       end).
  { subst o. destruct cp as [cp|]; [|reflexivity].
    destruct (contains _ _) eqn:C.
    - destruct (contains_lookup _ _ C) as (v & Hv & ->). simpl. now rewrite Hv.
    - now rewrite (contains_false _ _ C). }
  rewrite Ho. clear o Ho. step_run. unfold makedirs, write.
  set (full := match match cp with Some cp => _ | None => None end with
               | Some p => _ | None => _ end).
  assert (Hfull : full = match cp with
                         | Some cp =>
                             match file_index cp !! basename file_path with
                             | Some p => if String.eqb p "" then os_path_join repo file_path else p
                             | None => os_path_join repo file_path
                             end
                         | None => os_path_join repo file_path
                         end).
  { subst full. destruct cp as [cp|]; reflexivity. }
  rewrite <- Hfull. clearbody full.
  destruct (os_makedirs env h _) as [x|] eqn:M; [discriminate|].
  destruct (write_text env _ _ _) as [x|] eqn:Wr; [discriminate|].
  intros [= <-]. now rewrite <- app_assoc.
Qed.

Lemma write_loop_exact repo cp fixed : forall h h',
  for_each (write_fixed env repo cp) fixed tt h = (Ret tt, h') ->
  h' = h ++ writes_of repo cp fixed.
Proof.
  induction fixed as [|item fixed IH]; intros h h'; simpl.
  - intros [= <-]. unfold writes_of. simpl. now rewrite app_nil_r.
  - intros H. apply bind_inv in H as [([] & h1 & H1 & H)|(e & _ & [=])].
    apply write_fixed_exact in H1 as ->. apply IH in H as ->.
    rewrite <- app_assoc. reflexivity.
Qed.

Lemma staged_tail a (fixed : list (string * string)) b h r h' :
  (_ ← git_checked env AddAll;
   status_result ← git env StatusPorcelain;
   let stdout := match status_result with Exited _ out _ => out | SpawnError _ => "" end in
   if String.eqb (strip stdout) "" then
     _ ← git env CheckoutPrevious;
     _ ← git env (BranchDelete b);
     mret (GitOperation.mk "" "No changes to commit" [] false)
   else
     let commit_message := commit_text env a in
     result ← git env (Commit commit_message);
     match result with
     | Exited rc _ _ =>
         if negb (rc =? 0)%Z then raise (CalledProcessError rc)
         else mret (GitOperation.mk b commit_message (dict_keys fixed) true)
     | SpawnError e => raise (OSError e)
     end) h = (r, h') ->
  exists T, h' = h ++ T /\ staged_run b (commit_text env a) (dict_keys fixed) T r.
Proof.
  intros H.
  apply bind_inv in H as [(a1 & h3 & Ha & H)|(e & Ha & ->)];
    apply git_checked_inv in Ha
      as [(out1 & err1 & Hr & ->)|[(rc & out1 & err1 & Hrc & Hr & ->)|(e' & Hr & ->)]];
    try discriminate;
    try (inversion Hr; subst; eexists; split; [reflexivity|]; now constructor).
  clear Hr a1.
  apply bind_inv in H as [(st & h4 & Ha & H)|(e & Ha & ->)];
    apply git_inv in Ha as [(rc & out2 & err2 & Hr & ->)|(e' & Hr & ->)];
    try discriminate.
  2:{ inversion Hr; subst. eexists. split; [rewrite <- app_assoc; reflexivity|]. constructor. }
  inversion Hr; subst; clear Hr. cbv zeta in H.
  destruct (String.eqb_spec (strip out2) "") as [Hblank|Hsome].
  - apply cleanup_spec in H as (C & -> & HC).
    eexists. split; [rewrite <- ?app_assoc; reflexivity|]. simpl. now constructor.
  - apply bind_inv in H as [(res & h5 & Ha & H)|(e & Ha & ->)];
      apply git_inv in Ha as [(rc3 & out3 & err3 & Hr & ->)|(e' & Hr & ->)];
      try discriminate.
    2:{ inversion Hr; subst. eexists. split; [rewrite <- ?app_assoc; reflexivity|].
        now constructor. }
    inversion Hr; subst; clear Hr. step_run.
    destruct (Z.eqb_spec rc3 0) as [->|Hne]; simpl in H; inversion H; subst;
      (eexists; split; [rewrite <- ?app_assoc; reflexivity|]; now constructor).
Qed.

(** When [create_fix_branch] reports success, the result names the new
    branch, the commit message and the fixed files, and the run was
    exactly this: the branch was created, every fixed file was written
    once, in order, at the path the index has for its base name or else
    under the repository, its directory made first, and then
    [git add -A], a [git status] that printed something and a
    [git commit] that exited with 0; nothing else was run. *)
Theorem create_fix_branch_success repo a fixed cp h g h' et :
  LogAnalysis.error_type a = JStr et ->
  create_fix_branch env repo a fixed cp h = (Ret g, h') ->
  GitOperation.success g = true ->
  let b := branch_name_of env et h in
  g = GitOperation.mk b (commit_text env a) (dict_keys fixed) true /\
  exists out err T,
    commits (commit_text env a) T /\
    h' = h ++ [Invoked GitManager; Subprocess (CheckoutNew b) (Exited 0 out err)]
           ++ writes_of repo cp fixed ++ T.
Proof.
  intros Het Hrun Hok b. unfold create_fix_branch in Hrun. rewrite Het in Hrun.
  step_run. simpl in Hrun. unfold except_called_process_error in Hrun.
  fold (branch_name_of env et h) in Hrun. fold b in Hrun.
  destruct (fix_branch_body _ _ _ _ _ _ _) as [r0 h1] eqn:Hb.
  assert (r0 = Ret g /\ h1 = h') as [-> ->].
  { destruct r0 as [g0|[]]; inversion Hrun; subst; auto. discriminate Hok. }
  clear Hrun. unfold fix_branch_body in Hb.
  apply bind_inv in Hb as [(a0 & h1 & Ha & H)|(e & _ & [=])].
  apply git_checked_inv in Ha
    as [(out & err & _ & ->)|[(rc & out & err & _ & [=] & _)|(e' & [=] & _)]].
  apply bind_inv in H as [([] & h2 & Hw & H)|(e & _ & [=])].
  apply write_loop_exact in Hw as ->.
  apply staged_tail in H as (T & -> & HT).
  assert (g = GitOperation.mk b (commit_text env a) (dict_keys fixed) true /\
          commits (commit_text env a) T) as [-> HC].
  { inversion HT as [ | | | ? ? ? ? ? C ? Hblank HCl | | | ]; subst.
    - inversion HCl; subst. discriminate Hok.
    - split; [reflexivity|]. unfold commits. eauto 12. }
  split; [reflexivity|]. exists out, err, T. split; [assumption|].
  rewrite <- !app_assoc. reflexivity.
Qed.

End GitSuccess.

(** ** What the code generator returns *)

Section GenerateFix.
Import PyStr Json Py Codebase Pipeline Terms FixTerms.
Variable env : Env.

Ltac step_run :=
  unfold mbind, run_bind, mret, run_ret, emit, call_claude, lift, raise, so_far in *.

Lemma dict_lookup_set {V} k p (v : V) d :
  dict_lookup k (dict_set p v d) = if String.eqb k p then Some v else dict_lookup k d.
Proof.
  induction d as [|[k' v'] d IH]; simpl; [reflexivity|].
  destruct (String.eqb_spec p k') as [->|Hp]; simpl.
  - destruct (String.eqb_spec k k'); reflexivity.
  - rewrite IH. destruct (String.eqb_spec k k') as [->|]; [|reflexivity].
    destruct (String.eqb_spec k' p); [congruence|reflexivity].
Qed.

Lemma fix_one_spec solution fc cp all acc file_path h fixed h' :
  fix_one env solution fc cp acc file_path h = (Ret fixed, h') ->
  file_path ∈ all ->
  exists E, h' = h ++ E /\ Forall (fix_request all) E /\
    forall k c, dict_lookup k fixed = Some c ->
                dict_lookup k acc = Some c \/ answered E k c.
Proof.
  unfold fix_one. intros H Hin.
  apply bind_inv in H as [(o1 & h1 & H1 & H)|(e & _ & [=])].
  unfold lift in H1. injection H1 as _ <-.
  apply bind_inv in H as [(o2 & h2 & H2 & H)|(e & _ & [=])].
  unfold lift in H2. injection H2 as _ <-.
  destruct (String.eqb_spec o2 "") as [Hempty|Hne].
  - injection H as <- <-. exists []. rewrite app_nil_r. split; [reflexivity|].
    split; [constructor|]. auto.
  - apply bind_inv in H as [(cd & h3 & H3 & H)|(e & _ & [=])].
    unfold lift in H3. injection H3 as _ <-.
    apply bind_inv in H as [(p & h4 & H4 & H)|(e & _ & [=])].
    unfold lift in H4. injection H4 as H4 <-.
    destruct file_path; try discriminate. injection H4 as ->.
    apply bind_inv in H as [(reply & h5 & H5 & H)|(e & _ & [=])].
    unfold call_claude in H5. injection H5 as H5 <-.
    injection H as <- <-. eexists. split; [reflexivity|]. split.
    + constructor; [|constructor]. unfold fix_request. eauto 10.
    + intros k c. rewrite dict_lookup_set.
      destruct (String.eqb_spec k p) as [->|]; [|auto].
      intros [= <-]. right. unfold answered. rewrite H5.
      eexists _, _, _, _. split; [apply list_elem_of_here|reflexivity].
Qed.

Lemma fix_loop_spec solution fc cp all files : forall acc h fixed h',
  for_each (fix_one env solution fc cp) files acc h = (Ret fixed, h') ->
  Forall (fun f => f ∈ all) files ->
  exists E, h' = h ++ E /\ Forall (fix_request all) E /\
    forall k c, dict_lookup k fixed = Some c ->
                dict_lookup k acc = Some c \/ answered E k c.
Proof.
  induction files as [|f files IH]; intros acc h fixed h'; simpl.
  - intros [= <- <-] _. exists []. rewrite app_nil_r. split; [reflexivity|].
    split; [constructor|]. auto.
  - intros H Hall. inversion Hall as [|? ? Hf Hrest]; subst.
    apply bind_inv in H as [(acc1 & h1 & H1 & H)|(e & _ & [=])].
    destruct (fix_one_spec _ _ _ all _ _ _ _ _ H1 Hf) as (E1 & -> & HE1 & Hk1).
    destruct (IH _ _ _ _ H Hrest) as (E2 & -> & HE2 & Hk2).
    exists (E1 ++ E2). split; [now rewrite app_assoc|]. split; [now apply Forall_app|].
    intros k c Hkc. destruct (Hk2 k c Hkc) as [Hacc1|(cd & d & o & r & Hin & ->)].
    + destruct (Hk1 k c Hacc1) as [?|(cd & d & o & r & Hin & ->)]; [auto|].
      right. exists cd, d, o, r. split; [|reflexivity]. apply elem_of_app. auto.
    + right. exists cd, d, o, r. split; [|reflexivity]. apply elem_of_app. auto.
Qed.

(** When [generate_fix] returns, it has asked the model only about files
    the solution lists and whose text to fix is not empty, and it has
    asked nothing else; and every file it returns is one it asked about,
    its content the cleaned reply to that request. *)
Theorem generate_fix_sound solution fc cp h fixed h' :
  generate_fix env solution fc cp h = (Ret fixed, h') ->
  exists files E,
    iter (Solution.affected_files solution) = Ret files /\
    h' = h ++ Invoked CodeGenerator :: E /\
    Forall (fix_request files) E /\
    forall k c, dict_lookup k fixed = Some c -> answered E k c.
Proof.
  unfold generate_fix. intros H.
  apply bind_inv in H as [([] & h1 & H1 & H)|(e & _ & [=])].
  unfold emit in H1. injection H1 as <-.
  apply bind_inv in H as [(files & h2 & H2 & H)|(e & _ & [=])].
  unfold lift in H2. injection H2 as H2 <-.
  destruct (fix_loop_spec _ _ _ files _ _ _ _ _ H) as (E & -> & HE & Hk).
  { apply Forall_forall. auto. }
  exists files, E. split; [assumption|]. split; [now rewrite <- app_assoc|].
  split; [assumption|]. intros k c Hkc. destruct (Hk k c Hkc) as [Hnil|?]; [|assumption].
  discriminate Hnil.
Qed.

End GenerateFix.

(** ** The order of the stages *)

Section StageOrder.
Import PyStr Json Py Codebase Pipeline Terms StageTerms.
Variable env : Env.

Ltac step_run :=
  unfold mbind, run_bind, mret, run_ret, emit, call_claude, lift, raise, so_far in *.

Ltac close_stage :=
  eexists; split; [ rewrite <- ?app_assoc; reflexivity | reflexivity ].

Lemma stages_app E1 E2 :
  stages_invoked (E1 ++ E2) = stages_invoked E1 ++ stages_invoked E2.
Proof. apply omap_app. Qed.

Lemma stages_invoked_cons a E :
  stages_invoked (Invoked a :: E) = a :: stages_invoked E.
Proof. reflexivity. Qed.

Lemma analyze_logs_stage logs h r h' :
  analyze_logs env logs h = (r, h') ->
  exists E, h' = h ++ E /\ stages_invoked E = [LogAnalyzer].
Proof.
  unfold analyze_logs. step_run.
  destruct (completion env _ _ _) as [response|e]; [|intros [= <- <-]; close_stage].
  destruct (decode_reply response); intros [= <- <-]; close_stage.
Qed.

Lemma locate_error_stage a cp h r h' :
  locate_error env a cp h = (r, h') ->
  exists E, h' = h ++ E /\ stages_invoked E = [ErrorLocator].
Proof.
  unfold locate_error. step_run.
  destruct (locate_prompt env a cp) as [[paths [p|]]|e]; try (intros [= <- <-]; close_stage).
  destruct (completion env _ _ _) as [response|e]; [|intros [= <- <-]; close_stage].
  destruct (decode_reply response); [|intros [= <- <-]; close_stage].
  destruct (slice_prefix _ _); intros [= <- <-]; close_stage.
Qed.

Lemma propose_solution_stage a ec ctx h r h' :
  propose_solution env a ec ctx h = (r, h') ->
  exists E, h' = h ++ E /\ stages_invoked E = [SolutionArchitect].
Proof.
  unfold propose_solution. step_run.
  destruct (join_or env _ _); [|intros [= <- <-]; close_stage].
  destruct (completion env _ _ _) as [response|e]; [|intros [= <- <-]; close_stage].
  destruct (decode_reply response); [|intros [= <- <-]; close_stage].
  destruct (len _); intros [= <- <-]; close_stage.
Qed.

Lemma fix_one_quiet solution fc cp acc file_path h r h' :
  fix_one env solution fc cp acc file_path h = (r, h') ->
  exists E, h' = h ++ E /\ stages_invoked E = [].
Proof.
  unfold fix_one. step_run.
  destruct (preloaded fc file_path) as [o1|e];
    [|intros [= <- <-]; exists []; now rewrite app_nil_r].
  destruct (match cp with Some _ => _ | None => _ end) as [o2|e];
    [|intros [= <- <-]; exists []; now rewrite app_nil_r].
  destruct (String.eqb o2 ""); [intros [= <- <-]; exists []; now rewrite app_nil_r|].
  destruct (match file_path with JStr _ => _ | _ => _ end) as [cd|e];
    [|intros [= <- <-]; exists []; now rewrite app_nil_r].
  destruct (as_str file_path) as [p|e];
    [|intros [= <- <-]; exists []; now rewrite app_nil_r].
  destruct (completion env _ _ _) as [reply|e]; intros [= <- <-]; close_stage.
Qed.

Lemma fix_loop_quiet solution fc cp files : forall acc h r h',
  for_each (fix_one env solution fc cp) files acc h = (r, h') ->
  exists E, h' = h ++ E /\ stages_invoked E = [].
Proof.
  induction files as [|f files IH]; intros acc h r h'; simpl.
  - intros [= <- <-]. exists []. now rewrite app_nil_r.
  - intros H. apply bind_inv in H as [(acc1 & h1 & H1 & H)|(e & H1 & ->)].
    + apply fix_one_quiet in H1 as (E1 & -> & HE1).
      apply IH in H as (E2 & -> & HE2).
      exists (E1 ++ E2). split; [now rewrite app_assoc|].
      now rewrite stages_app, HE1, HE2.
    + now apply fix_one_quiet in H1.
Qed.

Lemma generate_fix_stage solution fc cp h r h' :
  generate_fix env solution fc cp h = (r, h') ->
  exists E, h' = h ++ E /\ stages_invoked E = [CodeGenerator].
Proof.
  unfold generate_fix. intros H.
  apply bind_inv in H as [([] & h1 & H1 & H)|(e & [=] & _)].
  unfold emit in H1. injection H1 as <-.
  apply bind_inv in H as [(files & h2 & H2 & H)|(e & H2 & ->)];
    unfold lift in H2; injection H2 as H2 <-.
  - apply fix_loop_quiet in H as (E & -> & HE).
    exists (Invoked CodeGenerator :: E). split; [now rewrite <- app_assoc|].
    now rewrite stages_invoked_cons, HE.
  - close_stage.
Qed.

Lemma callbacks_quiet N : forallb is_callback N = true -> stages_invoked N = [].
Proof.
  induction N as [|e N IH]; simpl; [reflexivity|].
  intros [He HN]%andb_prop. destruct e; try discriminate. now apply IH.
Qed.

Lemma notify_quiet cb cp fixed h r h' :
  notify env cb cp fixed h = (r, h') ->
  exists E, h' = h ++ E /\ stages_invoked E = [].
Proof.
  unfold notify. destruct cb as [cb|], cp as [cp|];
    try (intros [= <- <-]; exists []; now rewrite app_nil_r).
  intros H. apply (notify_loop env _ _ _ _ _ _ _ (Forall_keys fixed)) in H
    as (N & -> & HN & _).
  exists N. split; [reflexivity|]. now apply callbacks_quiet.
Qed.

Lemma writes_quiet W : Forall (fun e => is_write e = true) W -> stages_invoked W = [].
Proof.
  induction 1 as [|e W He _ IH]; simpl; [reflexivity|].
  destruct e; try discriminate; exact IH.
Qed.

Lemma writes_fail_are_writes x W :
  writes_fail x W -> Forall (fun e => is_write e = true) W.
Proof.
  intros (W0 & ev & -> & Hok & Hev & _). apply Forall_app. split.
  - now apply writes_ok_are_writes.
  - now repeat constructor.
Qed.

Lemma branch_run_quiet b msg keys B r :
  branch_run b msg keys B r -> stages_invoked B = [].
Proof.
  assert (Hc : forall C r, cleanup_run b C r -> stages_invoked C = []).
  { intros C r' HC. now inversion HC. }
  assert (Hs : forall T r, staged_run b msg keys T r -> stages_invoked T = []).
  { intros T r' HT. inversion HT; subst; try reflexivity.
    match goal with HC : cleanup_run _ ?C _ |- _ =>
      change (stages_invoked C = []); exact (Hc _ _ HC) end. }
  intros HB. inversion HB as [ | | ? ? W x HW | ? ? W T ? HW HT ]; subst; try reflexivity.
  - change (stages_invoked W = []). apply writes_quiet.
    now apply (writes_fail_are_writes x).
  - change (stages_invoked (W ++ T) = []).
    rewrite stages_app, (Hs _ _ HT), app_nil_r.
    apply writes_quiet. now apply writes_ok_are_writes.
Qed.

Lemma create_fix_branch_stage repo a fixed cp h r h' :
  create_fix_branch env repo a fixed cp h = (r, h') ->
  exists E, h' = h ++ E /\ stages_invoked E = [GitManager].
Proof.
  unfold create_fix_branch. intros H.
  apply bind_inv in H as [([] & h1 & H1 & H)|(e & [=] & _)].
  unfold emit in H1. injection H1 as <-.
  apply bind_inv in H as [(et & h2 & H2 & H)|(e & H2 & ->)];
    unfold lift in H2; injection H2 as H2 <-; [|close_stage].
  apply bind_inv in H as [(h0 & h3 & H3 & H)|(e & [=] & _)].
  unfold so_far in H3. injection H3 as <- <-.
  unfold except_called_process_error in H.
  destruct (fix_branch_body _ _ _ _ _ _ _) as [r0 h1] eqn:Hb.
  apply fix_branch_body_spec in Hb as (B & -> & HB%branch_run_quiet).
  assert (h' = (h ++ [Invoked GitManager]) ++ B) as ->.
  { destruct r0 as [g|[]]; now inversion H. }
  exists (Invoked GitManager :: B). split; [now rewrite <- app_assoc|].
  now rewrite stages_invoked_cons, HB.
Qed.

(** In every run of [process_logs] the five agents start in the order of
    the pipeline, each at most once and none unless the one before it
    has started; and a run that reports success has started all five. *)
Theorem stages_in_order self logs fc ctx cb h r h' :
  process_logs env self logs fc ctx cb h = (r, h') ->
  exists E, h' = h ++ E /\
    stages_invoked E `prefix_of` pipeline /\
    (forall g, r = Ret g -> GitOperation.success g = true ->
               stages_invoked E = pipeline).
Proof.
  unfold process_logs. destruct logs as [|l logs].
  { intros [= <- <-]. exists []. rewrite app_nil_r. split; [reflexivity|].
    split; [apply prefix_nil|]. intros g [= <-]. discriminate. }
  intros H.
  apply bind_inv in H as [(analysis & h1 & H1 & H)|(e & H1 & ->)];
    apply analyze_logs_stage in H1 as (E1 & -> & HE1).
  2:{ exists E1. split; [reflexivity|]. rewrite HE1. split; [now eexists|]. discriminate. }
  apply bind_inv in H as [(x1 & h2 & H2 & H)|(e & H2 & ->)];
    unfold lift in H2; injection H2 as _ <-.
  2:{ exists E1. split; [reflexivity|]. rewrite HE1. split; [now eexists|]. discriminate. }
  apply bind_inv in H as [(ec & h2 & H2 & H)|(e & H2 & ->)];
    apply locate_error_stage in H2 as (E2 & -> & HE2).
  2:{ exists (E1 ++ E2). split; [now rewrite app_assoc|]. rewrite stages_app, HE1, HE2.
      split; [now eexists|]. discriminate. }
  apply bind_inv in H as [(x2 & h3 & H3 & H)|(e & H3 & ->)];
    unfold lift in H3; injection H3 as _ <-.
  2:{ exists (E1 ++ E2). split; [now rewrite app_assoc|]. rewrite stages_app, HE1, HE2.
      split; [now eexists|]. discriminate. }
  apply bind_inv in H as [(solution & h3 & H3 & H)|(e & H3 & ->)];
    apply propose_solution_stage in H3 as (E3 & -> & HE3).
  2:{ exists (E1 ++ E2 ++ E3). split; [now rewrite !app_assoc|].
      rewrite !stages_app, HE1, HE2, HE3. split; [now eexists|]. discriminate. }
  assert (Hstop : forall r0 : outcome GitOperation.t,
            (forall g, r0 = Ret g -> GitOperation.success g = false) ->
            exists E, ((h ++ E1) ++ E2) ++ E3 = h ++ E /\
              stages_invoked E `prefix_of` pipeline /\
              (forall g, r0 = Ret g -> GitOperation.success g = true ->
                         stages_invoked E = pipeline)).
  { intros r0 Hr0. exists (E1 ++ E2 ++ E3). split; [now rewrite !app_assoc|].
    rewrite !stages_app, HE1, HE2, HE3. split; [now eexists|].
    intros g Hg Hok. rewrite (Hr0 g Hg) in Hok. discriminate. }
  apply bind_inv in H as [(x3 & h4 & H4 & H)|(e & H4 & ->)];
    unfold lift in H4; injection H4 as _ <-.
  2:{ apply Hstop. discriminate. }
  destruct (negb _).
  { injection H as <- <-. apply Hstop. now intros g [= <-]. }
  apply bind_inv in H as [(n & h4 & H4 & H)|(e & H4 & ->)];
    unfold lift in H4; injection H4 as _ <-.
  2:{ apply Hstop. discriminate. }
  destruct (n =? 0).
  { injection H as <- <-. apply Hstop. now intros g [= <-]. }
  clear Hstop.
  apply bind_inv in H as [(fixed & h4 & H4 & H)|(e & H4 & ->)];
    apply generate_fix_stage in H4 as (E4 & -> & HE4).
  2:{ exists (E1 ++ E2 ++ E3 ++ E4). split; [now rewrite !app_assoc|].
      rewrite !stages_app, HE1, HE2, HE3, HE4. split; [now eexists|]. discriminate. }
  apply bind_inv in H as [([] & h5 & H5 & H)|(e & H5 & ->)];
    apply notify_quiet in H5 as (N & -> & HN).
  2:{ exists (E1 ++ E2 ++ E3 ++ E4 ++ N). split; [now rewrite !app_assoc|].
      rewrite !stages_app, HE1, HE2, HE3, HE4, HN. split; [now eexists|]. discriminate. }
  destruct fixed as [|item fixed].
  { injection H as <- <-. exists (E1 ++ E2 ++ E3 ++ E4 ++ N).
    split; [now rewrite !app_assoc|].
    rewrite !stages_app, HE1, HE2, HE3, HE4, HN. split; [now eexists|].
    intros g [= <-]. discriminate. }
  apply create_fix_branch_stage in H as (E5 & -> & HE5).
  exists (E1 ++ E2 ++ E3 ++ E4 ++ N ++ E5). split; [now rewrite !app_assoc|].
  rewrite !stages_app, HE1, HE2, HE3, HE4, HN, HE5. split; [now eexists|]. reflexivity.
Qed.

End StageOrder.

(** ** What the locator consults *)

Section LocatorFiles.
Import PyStr Json Py Codebase Pipeline Terms IndexTerms.
Variable env : Env.

Lemma query_bounded fs cp stack_trace_text error_message max_files files :
  (0 <= max_files)%Z ->
  find_relevant_files fs cp stack_trace_text error_message max_files = Ret files ->
  length files <= Z.to_nat max_files /\ NoDup (map path files).
Proof.
  intros Hmax Hq.
  destruct (find_relevant_files_spec fs cp stack_trace_text error_message max_files
              files Hq) as (S & C & -> & _ & _ & Hpaths).
  unfold slice_to.
  destruct (Z.leb_spec 0 max_files) as [_|]; [|lia].
  split; [rewrite length_take; lia|].
  replace (map path (firstn (Z.to_nat max_files) (S ++ C)))
    with (firstn (Z.to_nat max_files) (map path (S ++ C)))
    by apply firstn_map.
  rewrite Hpaths. eapply sublist_NoDup; [|apply sublist_take].
  apply first_occurrences_NoDup. constructor.
Qed.

(** When [locate_error] returns with an index, the stack trace and the
    error message of the analysis were strings (a reply that gives any
    other kind of value makes the call raise), and the files of the
    context it returns are the paths of the query for that trace and
    message with the bound 10: at most ten paths, no path twice, every
    one of them held by the index. *)
Theorem locate_error_files a cp h ec h' :
  locate_error env a (Some cp) h = (Ret ec, h') ->
  exists st em files,
    LogAnalysis.stack_trace a = JStr st /\
    LogAnalysis.error_message a = JStr em /\
    find_relevant_files (fs env) cp st em 10 = Ret files /\
    ErrorContext.relevant_files ec = map path files /\
    length (ErrorContext.relevant_files ec) <= 10 /\
    NoDup (ErrorContext.relevant_files ec) /\
    Forall (known cp) (ErrorContext.relevant_files ec).
Proof.
  unfold locate_error. intros H.
  apply bind_inv in H as [([] & h1 & H1 & H)|(e & [=] & _)].
  unfold emit in H1. injection H1 as <-.
  apply bind_inv in H as [([paths pv] & h2 & H2 & H)|(e & _ & [=])].
  unfold lift in H2. injection H2 as H2 <-.
  unfold locate_prompt in H2.
  destruct (LogAnalysis.stack_trace a) as [| | | |st| |] eqn:Hst; try discriminate.
  destruct (LogAnalysis.error_message a) as [| | | |em| |] eqn:Hem; try discriminate.
  simpl in H2.
  destruct (find_relevant_files (fs env) cp st em 10) as [files|] eqn:Hq; [|discriminate].
  simpl in H2. injection H2 as <- <-.
  apply bind_inv in H as [(response & h3 & H3 & H)|(e & _ & [=])].
  apply bind_inv in H as [(data & h4 & H4 & H)|(e & _ & [=])].
  apply bind_inv in H as [(x & h5 & H5 & H)|(e & _ & [=])].
  injection H as <- <-. simpl.
  assert (H10 : (0 <= 10)%Z) by lia.
  destruct (query_bounded _ _ _ _ _ _ H10 Hq) as [Hlen Hnd].
  exists st, em, files. repeat split; try assumption.
  - rewrite length_map. exact Hlen.
  - apply Forall_forall. intros p (e & -> & He)%list_elem_of_fmap.
    exact (query_paths_known _ _ _ _ _ _ _ Hq He).
Qed.

End LocatorFiles.

(** ** The further facts on the scenario *)

Section FurtherOnTheScenario.
Import PyStr Json Py Codebase Pipeline Terms Scenario.
Import IndexTerms GitTerms FixTerms StageTerms Trials.

Lemma file_index_sound_witness :
  registered file_extensions tree "Foo.java" foo_path.
Proof.
  apply (file_index_sound files file_extensions tree "Foo.java" foo_path).
  vm_compute. reflexivity.
Defined.

Lemma class_index_sound_witness :
  declares files file_extensions tree "Billing" billing_path.
Proof.
  apply (class_index_sound files file_extensions tree "Billing" [billing_path] billing_path).
  - vm_compute. reflexivity.
  - apply list_elem_of_here.
Defined.

Lemma query_from_index_witness :
  Forall (fun e => known provider (path e)) found.
Proof.
  apply Forall_forall. intros e He.
  apply (query_from_index files provider trace message 5 found e); [|exact He].
  vm_compute. reflexivity.
Defined.

Lemma query_after_build_witness :
  Forall (fun e => exists entry, entry ∈ tree /\ indexed file_extensions entry = true /\
                                 path_str (parts entry) = path e) found.
Proof.
  apply Forall_forall. intros e He.
  apply (query_after_build files file_extensions tree trace message 5 found e); [|exact He].
  vm_compute. reflexivity.
Defined.

Lemma excerpt_window_witness :
  exists pre before x after post,
    readlines foo_text = pre ++ before ++ x :: after ++ post /\
    length (pre ++ before) = 3 - 1 /\
    length before = Nat.min 1 (3 - 1) /\
    length after = Nat.min 1 (length (readlines foo_text) - 3) /\
    _read_file_excerpt files foo_path (Some 3) 1
      = "... (lines " +:+ of_nat (length pre + 1) +:+ "-"
        +:+ of_nat (3 + length after) +:+ ") ..." +:+ nl
        +:+ concat_str (before ++ x :: after).
Proof.
  apply (excerpt_window files foo_path foo_text 3 1).
  - reflexivity.
  - split; [lia|]. vm_compute. lia.
Defined.

Lemma process_logs_needs_index_witness :
  (exists e, fst (process_logs env_ok bare logs None "" None []) = Raise e) /\
  fst (process_logs env_ok bare logs None "" None []) = Raise (UnboundLocalError "prompt").
Proof.
  set (X := process_logs env_ok bare logs None "" None []).
  destruct (process_logs_needs_index env_ok bare logs None "" None [] (fst X) (snd X))
    as [He H].
  - reflexivity.
  - discriminate.
  - vm_compute. reflexivity.
  - split; [exact He|].
    edestruct (H analysis) as [Hr _]; [vm_compute; reflexivity|exact Hr].
Defined.

Lemma create_fix_branch_success_witness :
  exists out err T,
    commits (commit_text env_ok analysis) T /\
    snd (create_fix_branch env_ok "repo" analysis fixed_files (Some provider) [])
    = [Invoked GitManager; Subprocess (CheckoutNew branch) (Exited 0 out err)]
        ++ writes_of "repo" (Some provider) fixed_files ++ T.
Proof.
  set (X := create_fix_branch env_ok "repo" analysis fixed_files (Some provider) []).
  destruct (create_fix_branch_success env_ok "repo" analysis fixed_files (Some provider) []
              (GitOperation.mk branch (commit_text env_ok analysis) ["src/Foo.java"] true)
              (snd X) "Null Reference")
    as (_ & out & err & T & HC & Hh).
  - reflexivity.
  - vm_compute. reflexivity.
  - reflexivity.
  - exists out, err, T. split; [exact HC|exact Hh].
Defined.

Lemma generate_fix_sound_witness :
  exists files E,
    iter (Solution.affected_files solution) = Ret files /\
    Forall (fix_request files) E /\
    answered E "src/Foo.java" "public class Foo { }".
Proof.
  set (X := generate_fix env_ok solution ∅ (Some provider) []).
  destruct (generate_fix_sound env_ok solution ∅ (Some provider) [] fixed_files (snd X))
    as (fs & E & H1 & _ & H3 & H4).
  - vm_compute. reflexivity.
  - exists fs, E. split; [exact H1|]. split; [exact H3|]. apply H4. reflexivity.
Defined.

Lemma stages_in_order_witness :
  exists E,
    snd (process_logs env_ok orchestrator logs None "" (Some quiet_observer) []) = E /\
    stages_invoked E = pipeline.
Proof.
  set (X := process_logs env_ok orchestrator logs None "" (Some quiet_observer) []).
  destruct (stages_in_order env_ok orchestrator logs None "" (Some quiet_observer) []
              (fst X) (snd X)) as (E & HE & _ & Hall).
  - vm_compute. reflexivity.
  - exists E. split; [exact HE|]. eapply Hall; [vm_compute; reflexivity|reflexivity].
Defined.

Lemma locate_error_files_witness :
  exists ec,
    fst (locate_error env_ok analysis (Some provider) []) = Ret ec /\
    NoDup (ErrorContext.relevant_files ec) /\
    Forall (known provider) (ErrorContext.relevant_files ec).
Proof.
  edestruct (locate_error_files env_ok analysis provider []) as
    (st & em & fl & _ & _ & _ & _ & _ & Hnd & Hk).
  - vm_compute. reflexivity.
  - eexists. split; [vm_compute; reflexivity|]. split; [exact Hnd|exact Hk].
Defined.

End FurtherOnTheScenario.
